(** * Cross-reference indexing and link rewriting of agda-web-docs-lib

    A shallow embedding of the parts of [src/src/indexer.ts],
    [src/src/types.ts] (the block-aware [AgdaDocsTransformer]),
    [src/src/transformer.ts] (the transformer the CLI runs),
    [src/src/search.ts], [src/unnamed/part_001] (the chunking
    [AgdaDocsSearcher]) and [src/src/cli.ts] that the link rewriter,
    the line numbering, the module sidebar, the position-mapping
    indexer, the search-index builder and the batched CLI run are
    made of.

    JavaScript strings are modelled as [string]; a character is an
    [ascii], i.e. a UTF-16 code unit below 256 (so U+00A0, the
    non-breaking space, is the character 160). JavaScript objects used
    as tables keyed by file name or anchor are stdpp [gmap]s, except
    where key order matters (the search index), which is an
    association list in insertion order. *)

From stdpp Require Import base gmap strings list.
From Stdlib Require Import Strings.String Strings.Ascii Numbers.DecimalString Numbers.DecimalNat.

Open Scope string_scope.

(** ** JavaScript string helpers *)

Module JsString.

(** [`${n}`] for a non-negative integer. *)
Definition nat_to_string (n : nat) : string :=
  NilZero.string_of_uint (Nat.to_uint n).

(** [\d] *)
Definition is_digit (c : ascii) : bool :=
  (48 <=? nat_of_ascii c)%nat && (nat_of_ascii c <=? 57)%nat.

Fixpoint all_digits (s : string) : bool :=
  match s with
  | EmptyString => true
  | String c s' => is_digit c && all_digits s'
  end.

(** [\d+] over the whole string *)
Definition nonempty_digits (s : string) : bool :=
  match s with
  | EmptyString => false
  | _ => all_digits s
  end.

(** The line terminators that the regular-expression [.] does not
    match, among the code units below 256. *)
Definition is_line_terminator (c : ascii) : bool :=
  Ascii.eqb c "010" || Ascii.eqb c "013".

(** The white space removed by [String.prototype.trim], among the code
    units below 256: tab, line feed, vertical tab, form feed, carriage
    return, space and the non-breaking space. *)
Definition is_js_space (c : ascii) : bool :=
  let n := nat_of_ascii c in
  ((9 <=? n) && (n <=? 13))%nat || (n =? 32)%nat || (n =? 160)%nat.

Fixpoint trim_start (s : string) : string :=
  match s with
  | EmptyString => EmptyString
  | String c s' => if is_js_space c then trim_start s' else s
  end.

Fixpoint rev_string (s : string) : string :=
  match s with
  | EmptyString => EmptyString
  | String c s' => rev_string s' ++ String c EmptyString
  end.

(** [s.trim()] *)
Definition trim (s : string) : string :=
  rev_string (trim_start (rev_string (trim_start s))).

(** [s.startsWith(p)], returning what follows [p]. *)
Fixpoint strip_prefix (p s : string) : option string :=
  match p with
  | EmptyString => Some s
  | String c p' =>
      match s with
      | EmptyString => None
      | String c' s' => if Ascii.eqb c c' then strip_prefix p' s' else None
      end
  end.

(** [s.split(sep)] for a one-character separator: always at least one
    segment. *)
Fixpoint split_on (sep : ascii) (s : string) : list string :=
  match s with
  | EmptyString => [EmptyString]
  | String c s' =>
      if Ascii.eqb c sep then EmptyString :: split_on sep s'
      else match split_on sep s' with
           | [] => [String c EmptyString]
           | seg :: segs => String c seg :: segs
           end
  end.

(** [parts.join(sep)] *)
Fixpoint join (sep : string) (parts : list string) : string :=
  match parts with
  | [] => EmptyString
  | [p] => p
  | p :: ps => p ++ sep ++ join sep ps
  end.

Lemma append_nil_l (s : string) : "" ++ s = s.
Proof. reflexivity. Qed.

Lemma append_cons (c : ascii) (s t : string) : String c s ++ t = String c (s ++ t).
Proof. reflexivity. Qed.

Lemma string_app_assoc (a b c : string) : (a ++ b) ++ c = a ++ (b ++ c).
Proof. induction a; [done|]. rewrite !append_cons. congruence. Qed.

Lemma all_digits_app (s t : string) :
  all_digits (s ++ t) = all_digits s && all_digits t.
Proof.
  induction s as [|c s IH]; simpl; [done|].
  rewrite IH. by destruct (is_digit c).
Qed.

Lemma all_digits_nat_to_string (n : nat) : all_digits (nat_to_string n) = true.
Proof.
  unfold nat_to_string, NilZero.string_of_uint.
  destruct (Nat.to_uint n) as [|u|u|u|u|u|u|u|u|u|u] eqn:E; [done| | | | | | | | | |];
    simpl; generalize u; clear; induction u; simpl; auto.
Qed.

End JsString.

(** ** The numeric-fragment pattern [/(.+?\.html)?#(\d+)$/]

    [href.match(...)] in [transformAgdaLinks]: the leftmost start
    position at which the pattern matches wins; at one start the
    optional group is tried first (greedy [?]), and inside it the lazy
    [.+?] grows one character at a time. The result is
    [(hashMatch[1] || '', hashMatch[2])]. *)

Module HrefPattern.
Import JsString.

(** [#(\d+)$] *)
Definition tail_match (t : string) : option string :=
  match t with
  | String c d => if Ascii.eqb c "#" && nonempty_digits d then Some d else None
  | EmptyString => None
  end.

(** [.+?\.html] followed by [#(\d+)$]; [pre] is what [.+?] has
    consumed so far, [rest] the remaining input. *)
Fixpoint lazy_group (pre rest : string) : option (string * string) :=
  match (match strip_prefix ".html" rest with
         | Some t => tail_match t
         | None => None
         end) with
  | Some d => Some (pre ++ ".html", d)
  | None =>
      match rest with
      | EmptyString => None
      | String c rest' =>
          if is_line_terminator c then None
          else lazy_group (pre ++ String c EmptyString) rest'
      end
  end.

Definition group_at (t : string) : option (string * string) :=
  match t with
  | EmptyString => None
  | String c t' => if is_line_terminator c then None else lazy_group (String c EmptyString) t'
  end.

Definition match_at (t : string) : option (string * string) :=
  match group_at t with
  | Some r => Some r
  | None => match tail_match t with
            | Some d => Some (EmptyString, d)
            | None => None
            end
  end.

(** [href.match(/(.+?\.html)?#(\d+)$/)], as [(filePart, position)]. *)
Fixpoint href_match (s : string) : option (string * string) :=
  match match_at s with
  | Some r => Some r
  | None => match s with
            | EmptyString => None
            | String _ s' => href_match s'
            end
  end.

Example href_match_same : href_match "#342" = Some ("", "342").
Proof. reflexivity. Qed.
Example href_match_cross :
  href_match "Leios.Abstract.html#342" = Some ("Leios.Abstract.html", "342").
Proof. reflexivity. Qed.
Example href_match_block : href_match "#B2-L3" = None.
Proof. reflexivity. Qed.
Example href_match_nonnumeric : href_match "A.html#foo" = None.
Proof. reflexivity. Qed.

Lemma tail_match_sound (t d : string) :
  tail_match t = Some d -> t = "#" ++ d /\ nonempty_digits d = true.
Proof.
  destruct t as [|c d']; simpl; [done|].
  destruct (Ascii.eqb c "#") eqn:Ec; simpl; [|done].
  destruct (nonempty_digits d') eqn:Ed; [|done].
  intros [= <-]. apply Ascii.eqb_eq in Ec. subst. done.
Qed.

Lemma strip_prefix_sound (p s t : string) :
  strip_prefix p s = Some t -> s = p ++ t.
Proof.
  revert s. induction p as [|c p IH]; intros s; simpl; [by intros [= ->]|].
  destruct s as [|c' s]; [done|].
  destruct (Ascii.eqb c c') eqn:E; [|done].
  apply Ascii.eqb_eq in E. subst. intros H. by rewrite (IH _ H).
Qed.

Definition html_tail (rest : string) : option string :=
  match strip_prefix ".html" rest with
  | Some t => tail_match t
  | None => None
  end.

Lemma lazy_group_unfold (pre rest : string) :
  lazy_group pre rest =
  match html_tail rest with
  | Some d => Some (pre ++ ".html", d)
  | None =>
      match rest with
      | EmptyString => None
      | String c rest' =>
          if is_line_terminator c then None
          else lazy_group (pre ++ String c EmptyString) rest'
      end
  end.
Proof. by destruct rest. Qed.

Lemma html_tail_sound (rest d : string) :
  html_tail rest = Some d -> rest = ".html" ++ "#" ++ d /\ nonempty_digits d = true.
Proof.
  unfold html_tail.
  destruct (strip_prefix ".html" rest) as [t|] eqn:Es; [|done].
  intros Ht. apply strip_prefix_sound in Es. apply tail_match_sound in Ht as [-> Hd].
  by subst.
Qed.

Lemma lazy_group_sound (pre rest g d : string) :
  lazy_group pre rest = Some (g, d) ->
  pre ++ rest = g ++ "#" ++ d /\ nonempty_digits d = true.
Proof.
  revert pre. induction rest as [|c rest IH]; intros pre; rewrite lazy_group_unfold.
  - intros H. cbv in H. discriminate H.
  - destruct (html_tail (String c rest)) as [d'|] eqn:Et.
    + intros [= <- <-]. apply html_tail_sound in Et as [-> Hd].
      by rewrite string_app_assoc.
    + destruct (is_line_terminator c); [done|].
      intros H. apply IH in H as [H1 H2]. split; [|done].
      rewrite <- H1, string_app_assoc. done.
Qed.

Lemma match_at_sound (t f d : string) :
  match_at t = Some (f, d) -> t = f ++ "#" ++ d /\ nonempty_digits d = true.
Proof.
  unfold match_at, group_at.
  destruct t as [|c t'].
  - done.
  - destruct (is_line_terminator c) eqn:El.
    + destruct (tail_match (String c t')) as [d'|] eqn:Et; [|done].
      intros [= <- <-]. by apply tail_match_sound in Et.
    + destruct (lazy_group (String c "") t') as [[g d']|] eqn:Eg.
      * intros [= <- <-]. apply lazy_group_sound in Eg. done.
      * destruct (tail_match (String c t')) as [d'|] eqn:Et; [|done].
        intros [= <- <-]. by apply tail_match_sound in Et.
Qed.

(** Whatever the pattern matches ends in [#] and a non-empty run of
    digits, which is the captured position. *)
Lemma href_match_sound (s f d : string) :
  href_match s = Some (f, d) ->
  exists p, s = p ++ "#" ++ d /\ nonempty_digits d = true.
Proof.
  induction s as [|c s IH]; simpl.
  - done.
  - destruct (match_at (String c s)) as [[f' d']|] eqn:E.
    + intros [= <- <-]. apply match_at_sound in E as [E Hd]. eauto.
    + intros H. destruct (IH H) as [p [-> Hd]].
      exists (String c p). done.
Qed.

Fixpoint no_line_terminators (s : string) : bool :=
  match s with
  | EmptyString => true
  | String c s' => negb (is_line_terminator c) && no_line_terminators s'
  end.

Lemma no_line_terminators_app (s t : string) :
  no_line_terminators (s ++ t) = no_line_terminators s && no_line_terminators t.
Proof.
  induction s as [|c s IH]; [done|].
  rewrite append_cons. simpl. rewrite IH. by destruct (is_line_terminator c).
Qed.

Lemma digits_no_hash (y e : string) :
  all_digits (y ++ String "#" e) = false.
Proof. rewrite !all_digits_app. simpl. by rewrite andb_false_r. Qed.

(** The [#] that introduces a trailing run of digits is the last [#]. *)
Lemma last_hash_unique (x d y e : string) :
  all_digits d = true -> all_digits e = true ->
  x ++ "#" ++ d = y ++ "#" ++ e -> x = y /\ d = e.
Proof.
  revert y. induction x as [|c x IH]; intros y Hd He Heq;
    destruct y as [|c' y]; rewrite ?append_cons, ?append_nil_l in Heq.
  - by injection Heq.
  - injection Heq as Hc Hy. subst. by rewrite digits_no_hash in Hd.
  - injection Heq as Hc Hx. subst. by rewrite digits_no_hash in He.
  - injection Heq as Hc Hx. subst. destruct (IH y Hd He Hx) as [-> ->]. done.
Qed.

Lemma lazy_group_complete (a r pre : string) :
  nonempty_digits a = true -> no_line_terminators r = true ->
  lazy_group pre (r ++ ".html" ++ "#" ++ a) <> None.
Proof.
  intros Ha. revert pre. induction r as [|c r IH]; intros pre Hr;
    rewrite lazy_group_unfold.
  - unfold html_tail. rewrite append_nil_l. simpl.
    destruct a; [done|]. simpl in Ha |- *. by rewrite Ha.
  - destruct (html_tail (String c r ++ ".html" ++ "#" ++ a)); [done|].
    rewrite append_cons. simpl in Hr. apply andb_prop in Hr as [Hc Hr].
    destruct (is_line_terminator c); [done|]. by apply IH.
Qed.

Lemma href_match_unfold (s : string) :
  href_match s = match match_at s with
                 | Some r => Some r
                 | None => match s with
                           | EmptyString => None
                           | String _ s' => href_match s'
                           end
                 end.
Proof. by destruct s. Qed.

(** A link [T#a] to another [.html] file is parsed into [(T, a)]. *)
Lemma href_match_cross_file (p a : string) :
  p <> "" -> no_line_terminators (p ++ ".html") = true -> nonempty_digits a = true ->
  href_match ((p ++ ".html") ++ "#" ++ a) = Some (p ++ ".html", a).
Proof.
  intros Hp Hnl Ha. destruct p as [|c p]; [done|].
  rewrite (append_cons c p ".html") in Hnl |- *. simpl in Hnl.
  apply andb_prop in Hnl as [Hc Hnl].
  rewrite no_line_terminators_app in Hnl. apply andb_prop in Hnl as [Hnl _].
  rewrite href_match_unfold.
  rewrite (append_cons c (p ++ ".html") ("#" ++ a)), (string_app_assoc p ".html" ("#" ++ a)).
  unfold match_at. change (group_at (String c (p ++ ".html" ++ "#" ++ a)))
    with (if is_line_terminator c then None else lazy_group (String c "") (p ++ ".html" ++ "#" ++ a)).
  destruct (is_line_terminator c) eqn:Ec; [done|].
  destruct (lazy_group (String c "") (p ++ ".html" ++ "#" ++ a)) as [[g d]|] eqn:Eg.
  - apply lazy_group_sound in Eg as [Eg Hd].
    assert (Ex : String c (p ++ ".html") ++ "#" ++ a = g ++ "#" ++ d).
    { rewrite <- Eg, (append_cons c (p ++ ".html")), (append_cons c ""), append_nil_l,
        string_app_assoc. reflexivity. }
    assert (Hd' : all_digits d = true) by (destruct d; [done|exact Hd]).
    assert (Ha' : all_digits a = true) by (destruct a; [done|exact Ha]).
    destruct (last_hash_unique _ _ _ _ Ha' Hd' Ex) as [-> ->]. done.
  - by apply lazy_group_complete in Eg.
Qed.

End HrefPattern.

(** ** The link rewriter ([transformAgdaLinks], [src/src/types.ts])

    The document is the list of its elements in document order; each
    element records the index of the [pre.Agda] block it lies in (if
    any) and the attributes the rewriter reads or writes. The blocks
    have already been given their ids [B1], [B2], ... by
    [addLineNumbersToCodeBlocks], which [transform()] runs first. *)

Module LinkRewriter.
Import JsString HrefPattern.

(** [PositionMappings]: file name -> anchor -> line number. *)
Abbreviation PositionMappings := (gmap string (gmap string nat)).

Record El := mkEl {
  tag : string;
  blk : option nat;                 (* enclosing [pre.Agda], 0-based *)
  eid : option string;              (* [id] *)
  href : option string;             (* [href] *)
  text : string;                    (* [textContent] *)
  data_position : option string;    (* [data-position] *)
  data_original_href : option string;
  data_block_id : option string;
  data_target_file : option string;
  hoverable : bool                  (* [data-hoverable] and class [type-hoverable] *)
}.

Record Doc := mkDoc {
  nblocks : nat;                    (* number of [pre.Agda] blocks *)
  els : list El
}.

(** An entry of [unmappedLinks]. *)
Record Unmapped := mkUnmapped {
  u_href : string;
  u_element : nat;
  u_text : string
}.

(** [codeBlock.id = `B${blockIndex + 1}`] *)
Definition block_id (k : nat) : string := "B" ++ nat_to_string (S k).

Definition in_block (k : nat) (e : El) : bool :=
  match blk e with Some k' => Nat.eqb k k' | None => false end.

Definition attr_is (o : option string) (s : string) : bool :=
  match o with Some t => String.eqb t s | None => false end.

(** [findCodeBlockContainingPosition]: the index of the block found. *)
Definition findCodeBlockContainingPosition (d : Doc) (position : string) : option nat :=
  if Nat.leb (nblocks d) 1 then
    match nblocks d with O => None | S _ => Some 0 end
  else
    match List.find
            (fun k =>
               existsb (fun e => in_block k e && attr_is (eid e) position) (els d)
               || existsb (fun e => in_block k e && attr_is (data_position e) position) (els d))
            (seq 0 (nblocks d)) with
    | Some k => Some k
    | None => Some 0
    end.

(** [if (m[position])]: a line number is used only when truthy. *)
Definition truthy_line (o : option nat) : option nat :=
  match o with Some (S n) => Some (S n) | _ => None end.

(** [link.textContent || '[No text content]'] *)
Definition visible_text (e : El) : string :=
  if String.eqb (text e) "" then "[No text content]" else text e.

Definition set_el (d : Doc) (i : nat) (e : El) : Doc :=
  mkDoc (nblocks d) (<[i := e]> (els d)).

Definition rewrite_same (e : El) (h newh position blockId : string) : El :=
  mkEl (tag e) (blk e) (eid e) (Some newh) (text e) (Some position) (Some h)
       (Some blockId) (data_target_file e) true.

Definition rewrite_cross (e : El) (h newh position targetFile : string) : El :=
  mkEl (tag e) (blk e) (eid e) (Some newh) (text e) (Some position) (Some h)
       (data_block_id e) (Some targetFile) true.

(** The body of [links.forEach((link) => ...)] for the link at index
    [i]; the state is the document and [unmappedLinks]. *)
Definition rewrite_link (currentFile : string) (allMappings : PositionMappings)
    (st : Doc * list Unmapped) (i : nat) : Doc * list Unmapped :=
  let (d, um) := st in
  match els d !! i with
  | None => st
  | Some link =>
    match href link with
    | None => st
    | Some h =>
      if String.eqb h "" then st else
      match href_match h with
      | None => st
      | Some (filePart, position) =>
        if String.eqb filePart "" then
          let currentFileMappings :=
            if String.eqb currentFile "" then ∅
            else default ∅ (allMappings !! currentFile) in
          match truthy_line (currentFileMappings !! position) with
          | Some lineNumber =>
              let blockId :=
                match findCodeBlockContainingPosition d position with
                | Some k => block_id k
                | None => "B1"
                end in
              (set_el d i (rewrite_same link h
                             ("#" ++ blockId ++ "-L" ++ nat_to_string lineNumber)
                             position blockId), um)
          | None => (d, (um ++ [mkUnmapped h i (visible_text link)])%list)
          end
        else
          let targetFile := filePart in
          match truthy_line (allMappings !! targetFile ≫= lookup position) with
          | Some lineNumber =>
              (set_el d i (rewrite_cross link h
                             (targetFile ++ "#B1-L" ++ nat_to_string lineNumber)
                             position targetFile), um)
          | None => (d, (um ++ [mkUnmapped h i (visible_text link)])%list)
          end
      end
    end
  end.

Definition is_link (e : El) : bool :=
  String.eqb (tag e) "a" && match href e with Some _ => true | None => false end.

(** [document.querySelectorAll('a[href]')], taken once before the loop. *)
Definition link_indices (d : Doc) : list nat :=
  List.filter (fun i => match els d !! i with Some e => is_link e | None => false end)
         (seq 0 (List.length (els d))).

Definition rewrite_links (currentFile : string) (allMappings : PositionMappings)
    (d : Doc) : Doc * list Unmapped :=
  fold_left (rewrite_link currentFile allMappings) (link_indices d) (d, []).

(** [transformAgdaLinks()] returns nothing: the caller sees only the
    mutated document; [unmappedLinks] stays local. *)
Definition transformAgdaLinks (currentFile : string) (allMappings : PositionMappings)
    (d : Doc) : Doc :=
  fst (rewrite_links currentFile allMappings d).

(** *** Frame and shape of one rewriting step *)

(** The hrefs the rewriter writes, [#<Block>-L<n>] and
    [<file>#B1-L<n>], both end in [-L] and a decimal number. *)
Definition ends_with_line_ref (h : string) : Prop :=
  exists q n, h = q ++ "-L" ++ nat_to_string n.

Lemma hash_digits_not_line_ref (p d q e : string) :
  all_digits d = true -> all_digits e = true ->
  p ++ "#" ++ d <> q ++ "-L" ++ e.
Proof.
  revert q. induction p as [|c p IH]; intros q Hd He Heq;
    repeat rewrite ?append_cons, ?append_nil_l in Heq.
  - destruct q as [|c' q]; rewrite ?append_cons, ?append_nil_l in Heq.
    + discriminate Heq.
    + injection Heq as <- Hq. subst d.
      rewrite all_digits_app in Hd. simpl in Hd.
      by rewrite andb_false_r in Hd.
  - destruct q as [|c' q]; rewrite ?append_cons, ?append_nil_l in Heq.
    + injection Heq as -> Hp.
      destruct p as [|c'' p]; rewrite ?append_cons, ?append_nil_l in Hp.
      * discriminate Hp.
      * injection Hp as -> Hp. subst e.
        rewrite all_digits_app in He. simpl in He.
        by rewrite andb_false_r in He.
    + injection Heq as <- Heq.
      exact (IH q Hd He Heq).
Qed.

(** A rewritten href no longer matches the numeric-fragment pattern. *)
Lemma line_ref_no_match (h : string) :
  ends_with_line_ref h -> href_match h = None.
Proof.
  intros [q [n ->]].
  destruct (href_match (q ++ "-L" ++ nat_to_string n)) as [[f d]|] eqn:E; [|done].
  apply href_match_sound in E as [p [E Hd]].
  exfalso. refine (hash_digits_not_line_ref p d q (nat_to_string n) _ _ (eq_sym E)).
  - destruct d; [done|exact Hd].
  - apply all_digits_nat_to_string.
Qed.

Lemma set_el_lookup_ne (d : Doc) (i j : nat) (e : El) :
  i <> j -> els (set_el d i e) !! j = els d !! j.
Proof. intros. by apply list_lookup_insert_ne. Qed.

Lemma set_el_lookup_eq (d : Doc) (i : nat) (e e0 : El) :
  els d !! i = Some e0 -> els (set_el d i e) !! i = Some e.
Proof. intros H. apply list_lookup_insert_eq. by eapply lookup_lt_Some. Qed.

(** Rewriting the link at [i] touches no other element. *)
Lemma rewrite_link_frame (cur : string) (all : PositionMappings)
    (st : Doc * list Unmapped) (i j : nat) :
  i <> j -> els (fst (rewrite_link cur all st i)) !! j = els (fst st) !! j.
Proof.
  intros Hij. destruct st as [d um]. unfold rewrite_link.
  destruct (els d !! i) as [link|]; [|done].
  repeat case_match; simpl; try done; by apply set_el_lookup_ne.
Qed.

(** A href that does not match the pattern makes the step a no-op. *)
Lemma rewrite_link_nomatch (cur : string) (all : PositionMappings)
    (d : Doc) (um : list Unmapped) (i : nat) (e : El) :
  els d !! i = Some e ->
  (forall h, href e = Some h -> href_match h = None) ->
  rewrite_link cur all (d, um) i = (d, um).
Proof.
  intros He Hm. unfold rewrite_link. rewrite He.
  destruct (href e) as [h|] eqn:Eh; [|done].
  rewrite (Hm h eq_refl). by destruct (String.eqb h "").
Qed.

Lemma line_ref_same (blockId : string) (n : nat) :
  ends_with_line_ref ("#" ++ blockId ++ "-L" ++ nat_to_string n).
Proof. exists ("#" ++ blockId), n. by rewrite !string_app_assoc. Qed.

Lemma line_ref_cross (targetFile : string) (n : nat) :
  ends_with_line_ref (targetFile ++ "#B1-L" ++ nat_to_string n).
Proof. exists (targetFile ++ "#B1"), n. by rewrite !string_app_assoc. Qed.

(** After the step at [i], the element there is either untouched or
    carries a rewritten href. *)
Lemma rewrite_link_at (cur : string) (all : PositionMappings)
    (st : Doc * list Unmapped) (i : nat) (e : El) :
  els (fst st) !! i = Some e ->
  exists e', els (fst (rewrite_link cur all st i)) !! i = Some e' /\
    (e' = e \/ exists h, href e' = Some h /\ ends_with_line_ref h).
Proof.
  destruct st as [d um]. simpl. intros He. unfold rewrite_link. rewrite He.
  repeat case_match; simpl; try (exists e; by split; [|left]).
  - eexists. split; [by eapply set_el_lookup_eq|].
    right. eexists. split; [reflexivity|]. apply line_ref_same.
  - eexists. split; [by eapply set_el_lookup_eq|].
    right. eexists. split; [reflexivity|]. apply line_ref_same.
  - eexists. split; [by eapply set_el_lookup_eq|].
    right. eexists. split; [reflexivity|]. apply line_ref_cross.
Qed.

(** An element that every step at its own index leaves alone survives
    the whole loop. *)
Lemma fold_rewrite_stable (cur : string) (all : PositionMappings) (i : nat) (e : El) :
  (forall st, els (fst st) !! i = Some e -> els (fst (rewrite_link cur all st i)) !! i = Some e) ->
  forall (l : list nat) (st : Doc * list Unmapped),
  els (fst st) !! i = Some e ->
  els (fst (fold_left (rewrite_link cur all) l st)) !! i = Some e.
Proof.
  intros Hstep l. induction l as [|j l IH]; intros st Hst; simpl; [done|].
  apply IH. destruct (decide (j = i)) as [->|Hne].
  - by apply Hstep.
  - by rewrite rewrite_link_frame.
Qed.

(** Along the loop, each element keeps its original href or gets a
    rewritten one. *)
Lemma fold_rewrite_href (cur : string) (all : PositionMappings) (i : nat) (e : El) :
  forall (l : list nat) (st : Doc * list Unmapped) (e0 : El),
  els (fst st) !! i = Some e0 ->
  (href e0 = href e \/ exists h, href e0 = Some h /\ ends_with_line_ref h) ->
  exists e1, els (fst (fold_left (rewrite_link cur all) l st)) !! i = Some e1 /\
    (href e1 = href e \/ exists h, href e1 = Some h /\ ends_with_line_ref h).
Proof.
  intros l. induction l as [|j l IH]; intros st e0 H0 Hh; simpl; [eauto|].
  destruct (decide (j = i)) as [->|Hne].
  - destruct (rewrite_link_at cur all st i e0 H0) as [e' [H' [->|Hr]]].
    + eapply IH; eauto.
    + eapply IH; [exact H'|]. by right.
  - eapply IH; [|exact Hh]. by rewrite rewrite_link_frame.
Qed.

Lemma fold_rewrite_frame (cur : string) (all : PositionMappings) (i : nat) :
  forall (l : list nat) (st : Doc * list Unmapped),
  ~ List.In i l ->
  els (fst (fold_left (rewrite_link cur all) l st)) !! i = els (fst st) !! i.
Proof.
  intros l. induction l as [|j l IH]; intros st Hi; simpl; [done|].
  rewrite IH; [|simpl in Hi; tauto].
  apply rewrite_link_frame. simpl in Hi. intros ->. tauto.
Qed.

Lemma link_indices_In (d : Doc) (i : nat) (e : El) :
  els d !! i = Some e -> is_link e = true -> List.In i (link_indices d).
Proof.
  intros He Hl. unfold link_indices. apply filter_In. split.
  - apply in_seq. apply lookup_lt_Some in He. lia.
  - by rewrite He.
Qed.

(** The element of a link, in the final document, is what the step at
    its index made of it, that step seeing the element as it was. *)
Lemma transform_link_at (cur : string) (all : PositionMappings) (d : Doc) (i : nat) (e : El) :
  els d !! i = Some e -> is_link e = true ->
  exists st, els (fst st) !! i = Some e /\
    els (transformAgdaLinks cur all d) !! i = els (fst (rewrite_link cur all st i)) !! i.
Proof.
  intros He Hl.
  destruct (in_split _ _ (link_indices_In d i e He Hl)) as [l1 [l2 Hsplit]].
  assert (Hnd : List.NoDup (link_indices d)) by (apply List.NoDup_filter, seq_NoDup).
  rewrite Hsplit in Hnd. apply NoDup_remove_2 in Hnd.
  exists (fold_left (rewrite_link cur all) l1 (d, [])). split.
  - rewrite fold_rewrite_frame; [done|]. intros H. apply Hnd, in_or_app. by left.
  - unfold transformAgdaLinks, rewrite_links. rewrite Hsplit, fold_left_app. simpl.
    apply fold_rewrite_frame. intros H. apply Hnd, in_or_app. by right.
Qed.

End LinkRewriter.

(** ** Concrete documents for the link rewriter *)

Module LinkScenarios.
Import JsString LinkRewriter.

Definition link_in (b : nat) (h t : string) : El :=
  mkEl "a" (Some b) None (Some h) t None None None None false.

Definition anchor_in (b : nat) (a : string) : El :=
  mkEl "a" (Some b) (Some a) None "foo" None None None None false.

(** Module [M.html] with two blocks: anchor [100] lies in block [B2]
    (index 1), on its line 3; block [B1] holds two uses [#100]; block
    [B2] also links [A.html#42] and the unmapped [#999]. *)
Definition two_region_doc : Doc :=
  mkDoc 2 [link_in 0 "#100" "x"; link_in 0 "#100" "x"; anchor_in 1 "100";
           link_in 1 "A.html#42" "y"; link_in 1 "#999" "z"].

Definition scenario_mappings : PositionMappings :=
  <["M.html" := <["100" := 3]> ∅]> (<["A.html" := <["42" := 5]> ∅]> ∅).

(** A single unmapped link whose visible text is empty. *)
Definition empty_text_doc : Doc :=
  mkDoc 1 [link_in 0 "#999" ""].

(** The first [#100] link of [two_region_doc] after rewriting. *)
Definition rewritten_first_link : El :=
  mkEl "a" (Some 0) None (Some "#B2-L3") "x" (Some "100") (Some "#100") (Some "B2") None true.

End LinkScenarios.

(** ** Claims on the link rewriter *)

Module LinkClaims.
Import JsString HrefPattern LinkRewriter LinkScenarios.

(** C1 (failing input): in the two-block module [M.html] where anchor
    [100] lies in block [B2] on line 3, the first same-document link
    [#100] is rewritten to [#B2-L3] but the second to [#B1-L3]: the
    first rewrite stamps [data-position="100"] on that link, which sits
    in block [B1], and the block search then matches [B1] on that
    attribute before it reaches [B2]. *)
Theorem same_document_second_link_gets_block_one :
  (els two_region_doc !! 2 ≫= blk) = Some 1 /\
  map href (els (transformAgdaLinks "M.html" scenario_mappings two_region_doc)) =
    [Some "#B2-L3"; Some "#B1-L3"; None; Some "A.html#B1-L5"; Some "#999"].
Proof. split; vm_compute; reflexivity. Qed.

(** C2: a link [T#a] to another document [T] (a [.html] file name
    without line terminators) whose anchor is mapped to line [L] is
    rewritten to [T#B1-L<L>], whatever block of [T] holds the anchor:
    the target block is never looked up. Line numbers in the table are
    positive, as the indexer stores only truthy ones. *)
Theorem cross_document_link_targets_block_one
    (C T p a : string) (L : nat) (m : gmap string nat) (all : PositionMappings)
    (d : Doc) (i : nat) (link : El) :
  C <> T -> T = p ++ ".html" -> p <> "" -> no_line_terminators T = true ->
  nonempty_digits a = true ->
  all !! T = Some m -> m !! a = Some L -> 0 < L ->
  els d !! i = Some link -> tag link = "a" -> href link = Some (T ++ "#" ++ a) ->
  exists link', els (transformAgdaLinks C all d) !! i = Some link' /\
    href link' = Some (T ++ "#B1-L" ++ nat_to_string L).
Proof.
  intros _ HT Hp Hnl Ha HmT Hma HL Hi Htag Hh. subst T.
  assert (Hl : is_link link = true) by (unfold is_link; by rewrite Htag, Hh).
  destruct (transform_link_at C all d i link Hi Hl) as [[d0 um] [H0 ->]].
  simpl in H0. unfold rewrite_link. rewrite H0, Hh.
  assert (Hne : String.eqb ((p ++ ".html") ++ "#" ++ a) "" = false).
  { destruct p; [done|]. by rewrite append_cons. }
  rewrite Hne, href_match_cross_file by done.
  assert (HneT : String.eqb (p ++ ".html") "" = false).
  { destruct p; [done|]. by rewrite append_cons. }
  rewrite HneT, HmT. simpl. rewrite Hma.
  destruct L as [|n]; [lia|]. simpl.
  eexists. split; [by eapply set_el_lookup_eq|]. reflexivity.
Qed.

Lemma cross_document_link_targets_block_one_witness :
  exists link', els (transformAgdaLinks "M.html" scenario_mappings two_region_doc) !! 3 = Some link' /\
    href link' = Some ("A.html" ++ "#B1-L" ++ nat_to_string 5).
Proof.
  apply (cross_document_link_targets_block_one "M.html" "A.html" "A" "42" 5
           (<["42" := 5]> ∅) scenario_mappings two_region_doc 3 (link_in 1 "A.html#42" "y"));
    try reflexivity; try discriminate; try lia.
Defined.

(** C5: an element whose href the rewriter changed now carries an href
    that the numeric-fragment pattern does not match, so a second run
    of the rewriter, with any current file and any mapping table,
    leaves that element exactly as the first run left it. *)
Theorem rewritten_links_stable_under_second_pass
    (cur cur' : string) (all all' : PositionMappings) (d : Doc) (i : nat) (e e1 : El) :
  els d !! i = Some e ->
  els (transformAgdaLinks cur all d) !! i = Some e1 ->
  href e1 <> href e ->
  (exists h1, href e1 = Some h1 /\ href_match h1 = None) /\
  els (transformAgdaLinks cur' all' (transformAgdaLinks cur all d)) !! i = Some e1.
Proof.
  intros He He1 Hne.
  destruct (fold_rewrite_href cur all i e (link_indices d) (d, []) e He (or_introl eq_refl))
    as [e1' [Hf Hh]].
  change (fold_left (rewrite_link cur all) (link_indices d) (d, []))
    with (rewrite_links cur all d) in Hf.
  fold (transformAgdaLinks cur all d) in Hf.
  rewrite He1 in Hf. injection Hf as <-.
  destruct Hh as [Hh|[h1 [Hh1 Hr]]]; [done|].
  assert (Hnm : href_match h1 = None) by by apply line_ref_no_match.
  split; [eauto|].
  unfold transformAgdaLinks at 1, rewrite_links.
  apply fold_rewrite_stable; [|done].
  intros [d0 um] H0. simpl in H0.
  rewrite (rewrite_link_nomatch cur' all' d0 um i e1 H0); [done|].
  intros h Hh. rewrite Hh1 in Hh. by injection Hh as <-.
Qed.


Lemma rewritten_links_stable_under_second_pass_witness :
  (exists h1, href rewritten_first_link = Some h1 /\ href_match h1 = None) /\
  els (transformAgdaLinks "M.html" scenario_mappings
         (transformAgdaLinks "M.html" scenario_mappings two_region_doc)) !! 0
    = Some rewritten_first_link.
Proof.
  apply (rewritten_links_stable_under_second_pass "M.html" "M.html" scenario_mappings
           scenario_mappings two_region_doc 0 (link_in 0 "#100" "x") rewritten_first_link).
  - reflexivity.
  - vm_compute. reflexivity.
  - discriminate.
Defined.

(** C8 (failing input): in types.ts, the unmapped link [#999] is
    recorded in [unmappedLinks] (with the text ["[No text content]"],
    its visible text being empty), but that list is local: the
    function ends without logging it ("Track unmapped links for warning
    messages", and the sibling in transformer.ts warns about each one)
    and without returning it, so all that [transformAgdaLinks] yields is
    the unchanged document and the diagnostic is lost. *)
Lemma unmapped_link_diagnostic_text_placeholder :
  (els empty_text_doc !! 0 ≫= (fun e => Some (text e))) = Some "" /\
  rewrite_links "M.html" scenario_mappings empty_text_doc =
    (empty_text_doc, [mkUnmapped "#999" 0 "[No text content]"]) /\
  transformAgdaLinks "M.html" scenario_mappings empty_text_doc = empty_text_doc.
Proof. repeat split; vm_compute; reflexivity. Qed.

(** C8: a link whose href matches the numeric-fragment pattern but
    whose anchor has no truthy line in the table (of the current file
    for [#a], of the target file for [T#a]) leaves the whole document,
    its href included, unchanged, and appends exactly one record
    [{href, element, text}] to [unmappedLinks], with the original href
    and the text [textContent || '[No text content]']; nothing is
    thrown. *)
Theorem unmapped_link_unchanged_and_recorded
    (cur : string) (all : PositionMappings) (d : Doc) (um : list Unmapped)
    (i : nat) (link : El) (h f pos : string) :
  els d !! i = Some link -> href link = Some h ->
  href_match h = Some (f, pos) ->
  (f = "" /\ truthy_line ((if String.eqb cur "" then ∅ else default ∅ (all !! cur)) !! pos) = None
   \/ f <> "" /\ truthy_line (all !! f ≫= lookup pos) = None) ->
  rewrite_link cur all (d, um) i = (d, (um ++ [mkUnmapped h i (visible_text link)])%list).
Proof.
  intros Hi Hh Hm Hmiss. unfold rewrite_link. rewrite Hi, Hh.
  destruct (String.eqb h "") eqn:Eh.
  { apply String.eqb_eq in Eh. subst h. discriminate Hm. }
  rewrite Hm.
  destruct Hmiss as [[-> Hmiss]|[Hf Hmiss]].
  - simpl. by rewrite Hmiss.
  - destruct (String.eqb f "") eqn:Ef; [by apply String.eqb_eq in Ef|].
    by rewrite Hmiss.
Qed.

Lemma unmapped_link_unchanged_and_recorded_witness :
  rewrite_link "M.html" scenario_mappings (two_region_doc, []) 4 =
    (two_region_doc, ([] ++ [mkUnmapped "#999" 4 (visible_text (link_in 1 "#999" "z"))])%list).
Proof.
  apply (unmapped_link_unchanged_and_recorded "M.html" scenario_mappings two_region_doc []
           4 (link_in 1 "#999" "z") "#999" "" "999").
  - reflexivity.
  - reflexivity.
  - reflexivity.
  - left. split; [reflexivity|]. vm_compute. reflexivity.
Defined.

End LinkClaims.

(** ** Line numbering of a block ([addLineNumbersToCodeBlocks],
    [src/src/types.ts]; the indexer's [addLineNumbersToElementsInDocument]
    splits and filters the same way) *)

Module LineNumbering.
Import JsString.

(** One rendered line: number, anchor id [B<k>-L<n>], content id
    [B<k>-LC<n>] and the markup put inside the [code-line] div. *)
Record Line := mkLine {
  line_num : nat;
  line_id : string;
  line_content_id : string;
  line_content : string
}.

(** [lines.filter((line, index) =>
       !(index === lines.length - 1 && line.trim() === ''))] *)
Definition actual_lines (lines : list string) : list string :=
  map fst (List.filter
             (fun '(line, index) =>
                negb (Nat.eqb index (List.length lines - 1) && String.eqb (trim line) ""))
             (combine lines (seq 0 (List.length lines)))).

(** [line.trim() === '' ? '&nbsp;' : line] *)
Definition line_markup (line : string) : string :=
  if String.eqb (trim line) "" then "&nbsp;" else line.

Definition number_line (blockId : string) (index : nat) (line : string) : Line :=
  let lineNum := S index in
  mkLine lineNum (blockId ++ "-L" ++ nat_to_string lineNum)
         (blockId ++ "-LC" ++ nat_to_string lineNum) (line_markup line).

(** The lines of a block whose [innerHTML] is [originalContent]. *)
Definition number_lines (blockId originalContent : string) : list Line :=
  imap (number_line blockId) (actual_lines (split_on "010" originalContent)).

Example number_lines_trailing_newline :
  map line_content (number_lines "B1" "a

b
") = ["a"; "&nbsp;"; "b"].
Proof. reflexivity. Qed.

Lemma combine_snoc {A B} (l : list A) (x : A) (m : list B) (y : B) :
  List.length l = List.length m ->
  combine (l ++ [x]) (m ++ [y]) = (combine l m ++ [(x, y)])%list.
Proof.
  revert m. induction l as [|a l IH]; intros [|b m] Hlen; simpl in *; try done.
  rewrite IH; [done|lia].
Qed.

Lemma filter_all_kept {A} (f : A -> bool) (l : list A) :
  (forall x, List.In x l -> f x = true) -> List.filter f l = l.
Proof.
  induction l as [|a l IH]; intros H; simpl; [done|].
  rewrite (H a (or_introl eq_refl)), IH; [done|]. intros x Hx. apply H. by right.
Qed.

Lemma map_fst_combine_eq {A B} (l : list A) (m : list B) :
  List.length l = List.length m -> map fst (combine l m) = l.
Proof.
  revert m. induction l as [|a l IH]; intros [|b m] Hlen; simpl in *; try done.
  rewrite IH; [done|lia].
Qed.

Lemma actual_lines_snoc (segs : list string) (x : string) :
  actual_lines (segs ++ [x]) =
  if String.eqb (trim x) "" then segs else (segs ++ [x])%list.
Proof.
  unfold actual_lines.
  rewrite length_app. simpl. rewrite Nat.add_sub, seq_app. simpl.
  rewrite combine_snoc by (by rewrite length_seq).
  rewrite List.filter_app. simpl. rewrite Nat.eqb_refl. simpl.
  rewrite filter_all_kept.
  2:{ intros [line index] Hin. apply in_combine_r, in_seq in Hin.
      assert (Hne : Nat.eqb index (List.length segs) = false) by (apply Nat.eqb_neq; lia).
      rewrite Hne. done. }
  assert (Hfst : map fst (combine segs (seq 0 (List.length segs))) = segs).
  { apply map_fst_combine_eq. by rewrite length_seq. }
  destruct (String.eqb (trim x) ""); simpl.
  - by rewrite app_nil_r.
  - by rewrite map_app, Hfst.
Qed.

End LineNumbering.

(** ** Claims on line numbering *)

Module LineClaims.
Import JsString LineNumbering.

Definition a_newline_space : string := "a" ++ String "010" " ".

(** C7 (counterexample): the markup ["a\n "] splits into ["a"] and
    [" "]; the last segment is not empty, yet it is dropped and only
    one line is emitted. *)
Lemma whitespace_last_segment_dropped :
  split_on "010" a_newline_space = ["a"; " "] /\
  number_lines "B1" a_newline_space = [mkLine 1 "B1-L1" "B1-LC1" "a"].
Proof. split; reflexivity. Qed.

(** C7 (amended): with the markup split on newline into [segs ++ [x]],
    the lines emitted are exactly [segs], followed by [x] unless [x]
    trims to the empty string; they are numbered 1, 2, ... in order,
    and each line that trims to the empty string is rendered as
    [&nbsp;] ([number_line]). *)
Theorem block_lines_drop_only_blank_last_segment
    (blockId originalContent : string) (segs : list string) (x : string) :
  split_on "010" originalContent = (segs ++ [x])%list ->
  number_lines blockId originalContent =
    imap (number_line blockId) (if String.eqb (trim x) "" then segs else (segs ++ [x])%list).
Proof. intros Hs. unfold number_lines. by rewrite Hs, actual_lines_snoc. Qed.

Lemma block_lines_drop_only_blank_last_segment_witness :
  number_lines "B1" ("a" ++ String "010" (String "010" ("b" ++ String "010" ""))) =
    imap (number_line "B1") (if String.eqb (trim "") "" then ["a"; ""; "b"] else (["a"; ""; "b"] ++ [""])%list).
Proof.
  apply (block_lines_drop_only_blank_last_segment "B1" _ ["a"; ""; "b"] "").
  reflexivity.
Defined.

End LineClaims.

(** * The position-mapping indexer (indexer.ts, [buildPositionMappings])

    Everything the body of a file's [try] does between [readFileSync] and
    the mapping table it builds is [scan]: [None] when reading, parsing or
    scanning the file throws, [Some m] with the file's mappings otherwise.
    [progress_ok processed total] is [false] when the progress callback
    throws.  Only the error output of the console is kept, as a log. *)

Module PositionIndexer.
Import JsString.

Inductive LogEntry :=
  | FileError (file : string)      (* console.error(`Error processing file ${file}:`) *)
  | IndexError.                    (* console.error('Error building position mappings index:') *)

Record St := mkSt {
  globalPositionMappings : gmap string (gmap string nat);
  processedCount : nat;
  errors : list LogEntry
}.

Definition ends_with (suffix s : string) : bool :=
  match strip_prefix (rev_string suffix) (rev_string s) with
  | Some _ => true
  | None => false
  end.

Definition html_files (listing : list string) : list string :=
  List.filter (ends_with ".html") listing.

Definition batchSize : nat := 20.

(** [for (let i = 0; i < files.length; i += batchSize) files.slice(i, i + batchSize)] *)
Fixpoint batches (fuel : nat) (files : list string) : list (list string) :=
  match fuel with
  | O => []
  | S fuel' =>
      match files with
      | [] => []
      | _ :: _ => take batchSize files :: batches fuel' (drop batchSize files)
      end
  end.

Definition log (e : LogEntry) (st : St) : St :=
  mkSt (globalPositionMappings st) (processedCount st) (errors st ++ [e])%list.

Definition init : St := mkSt ∅ 0 [].

Section Indexer.
Variable scan : string -> option (gmap string nat).
Variable progress_ok : nat -> nat -> bool.

(** The body of [for (const file of batch)] in the batched version: its own
    [try]/[catch] around each file. *)
Definition process_file (total : nat) (st : St) (file : string) : St :=
  match scan file with
  | None => log (FileError file) st
  | Some m =>
      let st1 := mkSt (<[file := m]> (globalPositionMappings st))
                      (S (processedCount st)) (errors st) in
      if progress_ok (processedCount st1) total then st1
      else log (FileError file) st1
  end.

(** The batched [async buildPositionMappings] (indexer.ts, lines 267-340);
    [listing] is [None] when [readdirSync] throws. *)
Definition buildPositionMappings (listing : option (list string)) : St :=
  match listing with
  | None => log IndexError init
  | Some l =>
      let files := html_files l in
      fold_left (fun st batch => fold_left (process_file (List.length files)) batch st)
        (batches (List.length files) files) init
  end.

(** The loop of the synchronous [buildPositionMappings] (indexer.ts,
    lines 64-115): no [try] inside it, so the first exception leaves the
    loop for the outer [catch]; the flag says whether the loop ran to its
    end. *)
Fixpoint sync_loop (total : nat) (files : list string) (st : St) : St * bool :=
  match files with
  | [] => (st, true)
  | file :: rest =>
      match scan file with
      | None => (st, false)
      | Some m =>
          let st1 := mkSt (<[file := m]> (globalPositionMappings st))
                          (S (processedCount st)) (errors st) in
          if progress_ok (processedCount st1) total then sync_loop total rest st1
          else (st1, false)
      end
  end.

Definition buildPositionMappingsSync (listing : option (list string)) : St :=
  match listing with
  | None => log IndexError init
  | Some l =>
      let files := html_files l in
      let '(st, completed) := sync_loop (List.length files) files init in
      if completed then st else log IndexError st
  end.

Lemma batches_concat (fuel : nat) (files : list string) :
  List.length files <= fuel -> List.concat (batches fuel files) = files.
Proof.
  revert files. induction fuel as [|fuel IH]; intros files Hl; simpl.
  - destruct files; simpl in *; [reflexivity | lia].
  - destruct files as [|f fs]; [reflexivity|].
    simpl. rewrite IH.
    + change (f :: take (pred batchSize) fs ++ drop batchSize (f :: fs) = f :: fs)%list.
      simpl. f_equal. apply take_drop.
    + simpl in Hl. simpl. rewrite length_drop. lia.
Qed.

Lemma fold_batches (total : nat) (bs : list (list string)) (st : St) :
  fold_left (fun st batch => fold_left (process_file total) batch st) bs st =
  fold_left (process_file total) (List.concat bs) st.
Proof.
  revert st. induction bs as [|b bs IH]; intros st; simpl; [reflexivity|].
  by rewrite IH, fold_left_app.
Qed.

Lemma buildPositionMappings_flat (l : list string) :
  buildPositionMappings (Some l) =
  fold_left (process_file (List.length (html_files l))) (html_files l) init.
Proof.
  unfold buildPositionMappings. rewrite fold_batches, batches_concat; [reflexivity | lia].
Qed.

Lemma process_file_lookup (total : nat) (st : St) (file k : string) :
  globalPositionMappings (process_file total st file) !! k =
  if String.eqb file k then
    match scan file with Some m => Some m | None => globalPositionMappings st !! k end
  else globalPositionMappings st !! k.
Proof.
  unfold process_file.
  destruct (String.eqb_spec file k) as [<-|Hne];
    destruct (scan file) as [m|]; try reflexivity;
    destruct (progress_ok _ _); simpl;
    rewrite ?lookup_insert_eq, ?lookup_insert_ne by congruence; reflexivity.
Qed.

(** After the per-file loop, a file of the list is mapped exactly when its
    scan succeeds; the entries of other files are those before the loop. *)
Lemma fold_process_lookup (total : nat) (files : list string) (st : St) (k : string) :
  globalPositionMappings (fold_left (process_file total) files st) !! k =
  if bool_decide (k ∈ files) then
    match scan k with Some m => Some m | None => globalPositionMappings st !! k end
  else globalPositionMappings st !! k.
Proof.
  revert st. induction files as [|f fs IH]; intros st; simpl.
  - reflexivity.
  - rewrite IH, process_file_lookup.
    destruct (String.eqb_spec f k) as [->|Hne].
    + rewrite (bool_decide_eq_true_2 (k ∈ k :: fs)) by set_solver.
      destruct (bool_decide (k ∈ fs)); destruct (scan k); reflexivity.
    + assert (Hiff : k ∈ f :: fs <-> k ∈ fs) by set_solver.
      destruct (bool_decide_reflect (k ∈ fs)) as [Hin|Hnin].
      * rewrite bool_decide_eq_true_2 by (apply Hiff; exact Hin). reflexivity.
      * rewrite bool_decide_eq_false_2 by (rewrite Hiff; exact Hnin). reflexivity.
Qed.

Lemma process_file_errors (total : nat) (st : St) (file : string) :
  exists extra, errors (process_file total st file) = (errors st ++ extra)%list /\
    (scan file = None -> extra = [FileError file]).
Proof.
  unfold process_file. destruct (scan file) as [m|].
  - destruct (progress_ok _ _); simpl.
    + exists []. rewrite app_nil_r. split; [reflexivity | discriminate].
    + exists [FileError file]. split; [reflexivity | discriminate].
  - exists [FileError file]. split; reflexivity.
Qed.

Lemma fold_process_errors_grow (total : nat) (files : list string) (st : St) (e : LogEntry) :
  e ∈ errors st -> e ∈ errors (fold_left (process_file total) files st).
Proof.
  revert st. induction files as [|f fs IH]; intros st He; simpl; [exact He|].
  apply IH. destruct (process_file_errors total st f) as [extra [-> _]].
  set_solver.
Qed.

Lemma fold_process_logs_failure (total : nat) (files : list string) (st : St) (f : string) :
  f ∈ files -> scan f = None ->
  FileError f ∈ errors (fold_left (process_file total) files st).
Proof.
  revert st. induction files as [|g gs IH]; intros st Hin Hf; simpl.
  - set_solver.
  - destruct (String.eqb_spec g f) as [->|Hne].
    + apply fold_process_errors_grow.
      destruct (process_file_errors total st f) as [extra [-> Hx]].
      rewrite (Hx Hf). set_solver.
    + apply IH; [set_solver | exact Hf].
Qed.

Lemma sync_loop_app (total : nat) (pre rest : list string) (st : St) :
  sync_loop total (pre ++ rest) st =
  let '(st', ok) := sync_loop total pre st in
  if ok then sync_loop total rest st' else (st', false).
Proof.
  revert st. induction pre as [|f fs IH]; intros st; simpl; [reflexivity|].
  destruct (scan f); [|reflexivity].
  destruct (progress_ok _ _); [apply IH | reflexivity].
Qed.

Lemma sync_loop_lookup_outside (total : nat) (files : list string) (st : St) (k : string) :
  k ∉ files ->
  globalPositionMappings (fst (sync_loop total files st)) !! k = globalPositionMappings st !! k.
Proof.
  revert st. induction files as [|f fs IH]; intros st Hk; simpl; [reflexivity|].
  destruct (scan f) as [m|]; [|reflexivity].
  assert (f <> k) by set_solver.
  destruct (progress_ok _ _); simpl.
  - rewrite IH by set_solver. simpl. by rewrite lookup_insert_ne.
  - by rewrite lookup_insert_ne.
Qed.

(** The synchronous loop logs nothing: its errors are those it started with. *)
Lemma sync_loop_errors (total : nat) (files : list string) (st : St) :
  errors (fst (sync_loop total files st)) = errors st.
Proof.
  revert st. induction files as [|f fs IH]; intros st; simpl; [reflexivity|].
  destruct (scan f) as [m|]; [|reflexivity].
  destruct (progress_ok _ _); simpl; [by rewrite IH | reflexivity].
Qed.

End Indexer.

End PositionIndexer.

(** ** Claims on the position-mapping indexer *)

Module IndexerClaims.
Import JsString PositionIndexer.

(** A scan that throws on [A.html] and finds anchor [7] on line 2 of
    every other file; the progress callback never throws. *)
Definition scan_ex (file : string) : option (gmap string nat) :=
  if String.eqb file "A.html" then None else Some {[ "7" := 2 ]}.

Definition progress_ex (_ _ : nat) : bool := true.

(** C3 (failing input): in the synchronous [buildPositionMappings]
    (reached from [buildAllIndexes]), the loop over the scanned set has
    no per-file [try]/[catch].  When the read or parse of a file [f] of
    the set fails, every file after [f] gets no entry, whether it scans
    or not (the files before [f] may keep theirs, which the progress
    callback may also cut short), and the only error logged is the outer
    ['Error building position mappings index']: no per-file error. *)
Theorem sync_indexer_failure_aborts_run
    (scan : string -> option (gmap string nat)) (progress_ok : nat -> nat -> bool)
    (l pre rest : list string) (f : string) :
  html_files l = (pre ++ f :: rest)%list -> scan f = None ->
  errors (buildPositionMappingsSync scan progress_ok (Some l)) = [IndexError] /\
  forall k, k ∉ pre ->
    globalPositionMappings (buildPositionMappingsSync scan progress_ok (Some l)) !! k = None.
Proof.
  intros Hsplit Hfs.
  unfold buildPositionMappingsSync. cbv zeta. rewrite Hsplit, sync_loop_app.
  assert (Hpre : forall k, k ∉ pre -> globalPositionMappings
            (fst (sync_loop scan progress_ok (List.length (pre ++ f :: rest)) pre init)) !! k = None).
  { intros k Hk. rewrite sync_loop_lookup_outside by exact Hk. reflexivity. }
  pose proof (sync_loop_errors scan progress_ok (List.length (pre ++ f :: rest)) pre init) as Herr.
  destruct (sync_loop scan progress_ok _ pre init) as [st' ok] eqn:Hst.
  simpl in Hpre, Herr.
  destruct ok; simpl; [rewrite Hfs|]; simpl;
    (split; [by rewrite Herr | intros k Hk; apply (Hpre k Hk)]).
Qed.

Lemma sync_indexer_failure_aborts_run_witness :
  errors (buildPositionMappingsSync scan_ex progress_ex (Some ["A.html"; "B.html"])) = [IndexError] /\
  forall k, k ∉ @nil string ->
    globalPositionMappings (buildPositionMappingsSync scan_ex progress_ex
       (Some ["A.html"; "B.html"])) !! k = None.
Proof.
  apply (sync_indexer_failure_aborts_run scan_ex progress_ex ["A.html"; "B.html"] [] ["B.html"]
           "A.html").
  - reflexivity.
  - reflexivity.
Defined.

End IndexerClaims.

(** * Search-entry extraction (search.ts)

    A parsed document keeps what [extractSearchEntriesFromFile] reads:
    the [.code-line] elements of each [pre.Agda] block, in document
    order, with their [id], their [textContent] and the [(id,
    textContent)] of their descendants that carry an [id]; and the
    [textContent] of each heading. *)

Module Search.
Import JsString PositionIndexer.

Inductive EntryType := TCode | THeader | TModule.

Record SearchEntry := mkEntry {
  entry_type : EntryType;
  content : string;
  lineNumber : option nat;
  position : option string;
  context : option string
}.

Record SLine := mkSLine {
  sl_id : string;
  sl_text : string;
  sl_idents : list (string * string)
}.

Record SDoc := mkSDoc {
  blocks : list (list SLine);
  headers : list string
}.

(** A JS object keyed by file name, in its key order. *)
Abbreviation SearchIndex := (list (string * list SearchEntry)).

Fixpoint obj_get {A} (k : string) (o : list (string * A)) : option A :=
  match o with
  | [] => None
  | (k', v) :: o' => if String.eqb k k' then Some v else obj_get k o'
  end.

(** [o[k] = v]: an existing key keeps its place, a new one goes last. *)
Fixpoint obj_set {A} (k : string) (v : A) (o : list (string * A)) : list (string * A) :=
  match o with
  | [] => [(k, v)]
  | (k', v') :: o' => if String.eqb k k' then (k, v) :: o' else (k', v') :: obj_set k v o'
  end.

(** The maximal run of [\d] at the front, and what follows it. *)
Fixpoint digit_run (s : string) : string * string :=
  match s with
  | EmptyString => (EmptyString, EmptyString)
  | String c r =>
      if is_digit c then let '(d, rest) := digit_run r in (String c d, rest)
      else (EmptyString, s)
  end.

(** [/B\d+-LC(\d+)/] tried at the start of [s]: the first [\d+] cannot
    give back digits, since [-] follows it. *)
Definition line_match_at (s : string) : option string :=
  match s with
  | String c r =>
      if Ascii.eqb c "B" then
        let '(d1, r1) := digit_run r in
        if String.eqb d1 "" then None
        else match strip_prefix "-LC" r1 with
             | Some r2 => let '(d2, _) := digit_run r2 in
                          if String.eqb d2 "" then None else Some d2
             | None => None
             end
      else None
  | EmptyString => None
  end.

(** [lineId.match(/B\d+-LC(\d+)/)]: the leftmost match, its group. *)
Fixpoint line_match (s : string) : option string :=
  match line_match_at s with
  | Some d => Some d
  | None => match s with
            | EmptyString => None
            | String _ s' => line_match s'
            end
  end.

(** [parseInt] of a run of decimal digits. *)
Definition parseInt_digits (s : string) : nat :=
  fold_left (fun n c => 10 * n + (nat_of_ascii c - 48)) (list_ascii_of_string s) 0.

(** [Object.keys(positionMappings).find((pos) => positionMappings[pos] === lineNumber)],
    the sub-map given in its key order. *)
Definition find_position (pm : list (string * nat)) (lineNumber : nat) : option string :=
  option_map fst (List.find (fun kv => Nat.eqb (snd kv) lineNumber) pm).

Definition newline : string := String "010" EmptyString.

Definition nonempty (s : string) : bool := negb (String.eqb s "").

(** [fullContext] for the line at [index] of [allLines]. *)
Definition fullContext (allLines : list SLine) (index : nat) (lineContent : string) : string :=
  let contextBefore :=
    if (0 <? index)%nat then
      match allLines !! (index - 1) with Some l => trim (sl_text l) | None => "" end
    else "" in
  let contextAfter :=
    if (index <? List.length allLines - 1)%nat then
      match allLines !! (index + 1) with Some l => trim (sl_text l) | None => "" end
    else "" in
  join newline (List.filter nonempty [contextBefore; lineContent; contextAfter]).

Definition identifier_entry (lineNumber : nat) (pm : list (string * nat)) (ctx : string)
    (identifier : string * string) : list SearchEntry :=
  let '(id, txt) := identifier in
  if String.eqb id "" || nonempty_digits id then []
  else let c := trim txt in
       if String.eqb c "" then []
       else [mkEntry TCode c (Some lineNumber) (find_position pm lineNumber) (Some ctx)].

(** The body of [allLines.forEach((line, index) => ...)]. *)
Definition line_entries (pm : list (string * nat)) (allLines : list SLine)
    (index : nat) (line : SLine) : list SearchEntry :=
  if String.eqb (sl_id line) "" then []
  else match line_match (sl_id line) with
       | None => []
       | Some d =>
           let lineNumber := parseInt_digits d in
           let lineContent := trim (sl_text line) in
           if String.eqb lineContent "" then []
           else let ctx := fullContext allLines index lineContent in
                mkEntry TCode lineContent (Some lineNumber) None (Some ctx) ::
                List.concat (map (identifier_entry lineNumber pm ctx) (sl_idents line))
       end.

Definition block_entries (pm : list (string * nat)) (allLines : list SLine) : list SearchEntry :=
  List.concat (imap (line_entries pm allLines) allLines).

Definition header_entry (h : string) : list SearchEntry :=
  let c := trim h in
  if String.eqb c "" then [] else [mkEntry THeader c None None (Some c)].

(** The entries of a document read and parsed without error. *)
Definition extract_entries (moduleName : string) (pm : list (string * nat)) (d : SDoc)
    : list SearchEntry :=
  (mkEntry TModule moduleName None None None ::
   List.concat (map (block_entries pm) (blocks d)) ++
   List.concat (map header_entry (headers d)))%list.

(** [s] with the suffix [suf] removed, when it ends with it. *)
Fixpoint strip_suffix (suf s : string) : option string :=
  if String.eqb s suf then Some ""
  else match s with
       | EmptyString => None
       | String c s' => option_map (String c) (strip_suffix suf s')
       end.

(** [path.basename(path.join(inputDir, file), '.html')] for a file name
    of the input directory (a directory part in front keeps a bare
    [.html] whole). *)
Definition basename_html (file : string) : string :=
  match strip_suffix ".html" file with
  | Some b => if String.eqb b "" then file else b
  | None => file
  end.

Section Extraction.
(** [read_parse file] is [None] when [readFileSync] or [new JSDOM] throws. *)
Variable read_parse : string -> option SDoc.
(** [mappings[file] || {}], in key order. *)
Variable mappings_of : string -> list (string * nat).

Definition extractSearchEntriesFromFile (file : string) (pm : list (string * nat))
    : list SearchEntry :=
  match read_parse file with
  | None => []
  | Some d => extract_entries (basename_html file) pm d
  end.

Definition index_file (index : SearchIndex) (file : string) : SearchIndex :=
  match extractSearchEntriesFromFile file (mappings_of file) with
  | [] => index
  | entries => obj_set file entries index
  end.

(** [buildSearchIndex]; [listing] is [None] when [readdirSync] throws. *)
Definition buildSearchIndex (listing : option (list string)) : SearchIndex :=
  match listing with
  | None => []
  | Some l =>
      let files := html_files l in
      fold_left (fun index batch => fold_left index_file batch index)
        (batches (List.length files) files) []
  end.

Lemma obj_get_set_eq {A} (k : string) (v : A) (o : list (string * A)) :
  obj_get k (obj_set k v o) = Some v.
Proof.
  induction o as [|[k' v'] o IH]; simpl.
  - by rewrite String.eqb_refl.
  - destruct (String.eqb_spec k k') as [->|Hne]; simpl.
    + by rewrite String.eqb_refl.
    + apply String.eqb_neq in Hne. by rewrite Hne.
Qed.

Lemma obj_get_set_ne {A} (k j : string) (v : A) (o : list (string * A)) :
  j <> k -> obj_get j (obj_set k v o) = obj_get j o.
Proof.
  intros Hne. induction o as [|[k' v'] o IH]; simpl.
  - apply String.eqb_neq in Hne. by rewrite Hne.
  - destruct (String.eqb_spec k k') as [->|Hk]; simpl.
    + apply String.eqb_neq in Hne. by rewrite Hne.
    + by rewrite IH.
Qed.

Lemma index_file_get (index : SearchIndex) (file k : string) :
  obj_get k (index_file index file) =
  if String.eqb file k then
    match extractSearchEntriesFromFile file (mappings_of file) with
    | [] => obj_get k index
    | es => Some es
    end
  else obj_get k index.
Proof.
  unfold index_file.
  destruct (String.eqb_spec file k) as [<-|Hne];
    destruct (extractSearchEntriesFromFile file (mappings_of file)) as [|e es];
    try reflexivity.
  - apply obj_get_set_eq.
  - apply obj_get_set_ne. congruence.
Qed.

Lemma fold_index_get (files : list string) (index : SearchIndex) (k : string) :
  obj_get k (fold_left index_file files index) =
  if bool_decide (k ∈ files) then
    match extractSearchEntriesFromFile k (mappings_of k) with
    | [] => obj_get k index
    | es => Some es
    end
  else obj_get k index.
Proof.
  revert index. induction files as [|f fs IH]; intros index; simpl.
  - reflexivity.
  - rewrite IH, index_file_get.
    destruct (String.eqb_spec f k) as [->|Hne].
    + rewrite (bool_decide_eq_true_2 (k ∈ k :: fs)) by set_solver.
      destruct (bool_decide (k ∈ fs));
        destruct (extractSearchEntriesFromFile k (mappings_of k)); reflexivity.
    + assert (Hiff : k ∈ f :: fs <-> k ∈ fs) by set_solver.
      destruct (bool_decide_reflect (k ∈ fs)) as [Hin|Hnin].
      * rewrite bool_decide_eq_true_2 by (apply Hiff; exact Hin). reflexivity.
      * rewrite bool_decide_eq_false_2 by (rewrite Hiff; exact Hnin). reflexivity.
Qed.

Lemma fold_index_batches (bs : list (list string)) (index : SearchIndex) :
  fold_left (fun index batch => fold_left index_file batch index) bs index =
  fold_left index_file (List.concat bs) index.
Proof.
  revert index. induction bs as [|b bs IH]; intros index; simpl; [reflexivity|].
  by rewrite IH, fold_left_app.
Qed.

Lemma buildSearchIndex_get (l : list string) (k : string) :
  obj_get k (buildSearchIndex (Some l)) =
  if bool_decide (k ∈ html_files l) then
    match extractSearchEntriesFromFile k (mappings_of k) with
    | [] => None
    | es => Some es
    end
  else None.
Proof.
  unfold buildSearchIndex. rewrite fold_index_batches, batches_concat by lia.
  rewrite fold_index_get. reflexivity.
Qed.

End Extraction.

Lemma string_length_app (s t : string) :
  String.length (s ++ t) = String.length s + String.length t.
Proof. induction s as [|c s IH]; [reflexivity|]. rewrite append_cons. simpl. lia. Qed.

Lemma strip_suffix_unfold (suf s : string) :
  strip_suffix suf s =
  if String.eqb s suf then Some ""
  else match s with
       | EmptyString => None
       | String c s' => option_map (String c) (strip_suffix suf s')
       end.
Proof. destruct s; reflexivity. Qed.

Lemma strip_suffix_app (base suf : string) :
  strip_suffix suf (base ++ suf) = Some base.
Proof.
  induction base as [|c b IH].
  - rewrite append_nil_l, strip_suffix_unfold, String.eqb_refl. reflexivity.
  - rewrite append_cons, strip_suffix_unfold.
    destruct (String.eqb_spec (String c (b ++ suf)) suf) as [Heq|_].
    + exfalso. apply (f_equal String.length) in Heq. simpl in Heq.
      rewrite string_length_app in Heq. lia.
    + rewrite IH. reflexivity.
Qed.

Lemma basename_html_app (base : string) :
  base <> "" -> basename_html (base ++ ".html") = base.
Proof.
  intros Hb. unfold basename_html. rewrite strip_suffix_app.
  destruct (String.eqb_spec base "") as [->|_]; [congruence | reflexivity].
Qed.

(** The immediate neighbours' window: the trimmed text of the line at
    [j] of the block, [""] past either end. *)
Definition neighbour_text (allLines : list SLine) (j : nat) : string :=
  match allLines !! j with Some l => trim (sl_text l) | None => "" end.

Definition immediate_window (allLines : list SLine) (index : nat) (lineContent : string) : string :=
  join newline (List.filter nonempty
    [match index with O => "" | S p => neighbour_text allLines p end;
     lineContent;
     neighbour_text allLines (S index)]).

Lemma fullContext_window (allLines : list SLine) (index : nat) (l : SLine) (c : string) :
  allLines !! index = Some l ->
  fullContext allLines index c = immediate_window allLines index c.
Proof.
  intros Hl. apply lookup_lt_Some in Hl.
  unfold fullContext, immediate_window, neighbour_text.
  f_equal. f_equal. f_equal.
  - destruct index as [|p]; simpl; [reflexivity|].
    rewrite Nat.sub_0_r. reflexivity.
  - f_equal. f_equal.
    destruct (Nat.ltb_spec index (List.length allLines - 1)) as [Hlt|Hge].
    + rewrite Nat.add_1_r. reflexivity.
    + rewrite (lookup_ge_None_2 allLines (S index)) by lia. reflexivity.
Qed.

Lemma elem_of_concat_imap {A B} (f : nat -> A -> list B) (l : list A) (x : B) :
  x ∈ List.concat (imap f l) -> exists i y, l !! i = Some y /\ x ∈ f i y.
Proof.
  revert f. induction l as [|y l IH]; intros f Hx; simpl in *.
  - set_solver.
  - apply elem_of_app in Hx as [Hx|Hx].
    + exists 0, y. split; [reflexivity | exact Hx].
    + destruct (IH (fun i => f (S i)) Hx) as (i & z & Hi & Hz).
      exists (S i), z. split; [exact Hi | exact Hz].
Qed.

Lemma elem_of_concat_map {A B} (f : A -> list B) (l : list A) (x : B) :
  x ∈ List.concat (map f l) -> exists y, y ∈ l /\ x ∈ f y.
Proof.
  induction l as [|y l IH]; intros Hx; simpl in *.
  - set_solver.
  - apply elem_of_app in Hx as [Hx|Hx].
    + exists y. split; [set_solver | exact Hx].
    + destruct (IH Hx) as (z & Hz & Hxz). exists z. split; [set_solver | exact Hxz].
Qed.

(** Every entry a code line gives carries that line's [fullContext]. *)
Lemma line_entries_context (pm : list (string * nat)) (allLines : list SLine)
    (index : nat) (line : SLine) (e : SearchEntry) :
  e ∈ line_entries pm allLines index line ->
  entry_type e = TCode /\ trim (sl_text line) <> "" /\
  context e = Some (fullContext allLines index (trim (sl_text line))).
Proof.
  unfold line_entries.
  destruct (String.eqb (sl_id line) ""); [set_solver|].
  destruct (line_match (sl_id line)) as [d|]; [|set_solver].
  destruct (String.eqb_spec (trim (sl_text line)) "") as [_|Hne]; [set_solver|].
  intros He. apply elem_of_cons in He as [->|He]; [done|].
  apply elem_of_concat_map in He as ([id txt] & _ & He).
  simpl in He.
  destruct (String.eqb id "" || nonempty_digits id); [set_solver|].
  destruct (String.eqb (trim txt) ""); [set_solver|].
  apply list_elem_of_singleton in He as ->. done.
Qed.

(** Every entry a code line gives carries that line's number. *)
Lemma line_entries_number (pm : list (string * nat)) (allLines : list SLine)
    (index : nat) (line : SLine) (e : SearchEntry) :
  e ∈ line_entries pm allLines index line ->
  exists dg, line_match (sl_id line) = Some dg /\ lineNumber e = Some (parseInt_digits dg).
Proof.
  unfold line_entries.
  destruct (String.eqb (sl_id line) ""); [set_solver|].
  destruct (line_match (sl_id line)) as [dg|]; [|set_solver].
  destruct (String.eqb (trim (sl_text line)) ""); [set_solver|].
  intros He. exists dg. split; [reflexivity|].
  apply elem_of_cons in He as [->|He]; [reflexivity|].
  apply elem_of_concat_map in He as ([id txt] & _ & He).
  simpl in He.
  destruct (String.eqb id "" || nonempty_digits id); [set_solver|].
  destruct (String.eqb (trim txt) ""); [set_solver|].
  apply list_elem_of_singleton in He as ->. reflexivity.
Qed.

Lemma header_entry_type (h : string) (e : SearchEntry) :
  e ∈ header_entry h -> entry_type e = THeader.
Proof.
  unfold header_entry. destruct (String.eqb (trim h) ""); [set_solver|].
  intros He. apply list_elem_of_singleton in He as ->. reflexivity.
Qed.

End Search.

(** ** Claims on search-entry extraction *)

Module SearchClaims.
Import JsString PositionIndexer Search.

(** A block of three lines: [a], a blank line (rendered as a non-breaking
    space) and [b]. *)
Definition nbsp_block : list SLine :=
  [mkSLine "B1-LC1" "a" []; mkSLine "B1-LC2" (String "160" "") []; mkSLine "B1-LC3" "b" []].

Definition nbsp_doc : SDoc := mkSDoc [nbsp_block] [].

Definition read_parse_ex (file : string) : option SDoc :=
  if String.eqb file "M.html" then Some nbsp_doc else None.

(** C6 (counterexample): the entry for line 3 ([b]) has context [b]
    alone, though the nearest non-empty line before it is [a]: only the
    immediately adjacent line is looked at, and it trims to empty. *)
Lemma context_skips_no_blank_neighbour :
  extract_entries "M" [] nbsp_doc =
    [mkEntry TModule "M" None None None;
     mkEntry TCode "a" (Some 1) None (Some "a");
     mkEntry TCode "b" (Some 3) None (Some "b")].
Proof. vm_compute. reflexivity. Qed.

(** C6 (amended): every code entry (a line's own entry and its
    identifiers' entries) comes from one code line of one block, whose
    id gives the entry's line number; its context is the newline-join
    of those of the trimmed texts of the line immediately before that
    line in its block, the line itself and the line immediately after
    it that are not empty; a neighbour that is blank or absent is left
    out and no further line is looked at. *)
Theorem code_entry_context_is_immediate_window
    (moduleName : string) (pm : list (string * nat)) (d : SDoc) (e : SearchEntry) :
  e ∈ extract_entries moduleName pm d -> entry_type e = TCode ->
  exists allLines index line dg,
    allLines ∈ blocks d /\ allLines !! index = Some line /\
    e ∈ line_entries pm allLines index line /\
    line_match (sl_id line) = Some dg /\ lineNumber e = Some (parseInt_digits dg) /\
    trim (sl_text line) <> "" /\
    context e = Some (immediate_window allLines index (trim (sl_text line))).
Proof.
  unfold extract_entries. intros He Ht.
  apply elem_of_cons in He as [->|He]; [discriminate Ht|].
  apply elem_of_app in He as [He|He].
  - apply elem_of_concat_map in He as (allLines & Hb & He).
    unfold block_entries in He.
    apply elem_of_concat_imap in He as (index & line & Hl & He).
    destruct (line_entries_context pm allLines index line e He) as (_ & Hne & Hc).
    destruct (line_entries_number pm allLines index line e He) as (dg & Hm & Hn).
    exists allLines, index, line, dg. repeat split; try assumption.
    rewrite Hc. f_equal. apply (fullContext_window _ _ line). exact Hl.
  - apply elem_of_concat_map in He as (h & _ & He).
    apply header_entry_type in He. congruence.
Qed.

Lemma code_entry_context_is_immediate_window_witness :
  exists allLines index line dg,
    allLines ∈ blocks nbsp_doc /\ allLines !! index = Some line /\
    mkEntry TCode "b" (Some 3) None (Some "b") ∈ line_entries [] allLines index line /\
    line_match (sl_id line) = Some dg /\
    lineNumber (mkEntry TCode "b" (Some 3) None (Some "b")) = Some (parseInt_digits dg) /\
    trim (sl_text line) <> "" /\
    context (mkEntry TCode "b" (Some 3) None (Some "b")) =
      Some (immediate_window allLines index (trim (sl_text line))).
Proof.
  apply (code_entry_context_is_immediate_window "M" [] nbsp_doc).
  - vm_compute. right. right. left.
  - reflexivity.
Defined.

(** C10: a document of the scanned set that is read and parsed without
    error is in the search index, and its entry list starts with the
    [module] entry whose content is the file name without [.html]; a
    file of the set is left out of the index only when its read or
    parse failed. *)
Theorem read_document_indexed_with_module_entry
    (read_parse : string -> option SDoc) (mappings_of : string -> list (string * nat))
    (l : list string) (base : string) (d : SDoc) :
  base <> "" -> (base ++ ".html") ∈ html_files l -> read_parse (base ++ ".html") = Some d ->
  (exists rest,
     obj_get (base ++ ".html") (buildSearchIndex read_parse mappings_of (Some l)) =
       Some (mkEntry TModule base None None None :: rest)) /\
  (forall file, file ∈ html_files l ->
     obj_get file (buildSearchIndex read_parse mappings_of (Some l)) = None ->
     read_parse file = None).
Proof.
  intros Hb Hin Hd. split.
  - rewrite buildSearchIndex_get, bool_decide_eq_true_2 by exact Hin.
    unfold extractSearchEntriesFromFile. rewrite Hd, basename_html_app by exact Hb.
    eexists. reflexivity.
  - intros file Hf Hnone.
    rewrite buildSearchIndex_get, bool_decide_eq_true_2 in Hnone by exact Hf.
    unfold extractSearchEntriesFromFile in Hnone.
    destruct (read_parse file); [discriminate Hnone | reflexivity].
Qed.

Lemma read_document_indexed_with_module_entry_witness :
  (exists rest,
     obj_get ("M" ++ ".html") (buildSearchIndex read_parse_ex (fun _ => []) (Some ["M.html"; "README.md"])) =
       Some (mkEntry TModule "M" None None None :: rest)) /\
  (forall file, file ∈ html_files ["M.html"; "README.md"] ->
     obj_get file (buildSearchIndex read_parse_ex (fun _ => []) (Some ["M.html"; "README.md"])) = None ->
     read_parse_ex file = None).
Proof.
  apply (read_document_indexed_with_module_entry read_parse_ex (fun _ => []) ["M.html"; "README.md"]
           "M" nbsp_doc).
  - discriminate.
  - vm_compute. left.
  - reflexivity.
Defined.

End SearchClaims.

(** * Writing the search index (part_001, [writeSearchIndex] and
    [writeChunkedSearchIndex])

    A search index is its entries in key order (file names end in
    [.html], so no key is integer-like and keys keep insertion order);
    iterating over [Object.keys(index)] and reading [index[file]] is
    iterating over its pairs.  [fits x] is [false] when [JSON.stringify(x)]
    throws [RangeError: Invalid string length].  A run records the
    [writeFileSync] calls, relative to [outputDir]; [None] is a thrown
    error. *)

Module Chunking.
Import JsString Search.

Inductive Written :=
  | Whole (index : SearchIndex)
  | Manifest (chunks : list string) (totalFiles totalEntries : nat)
  | ChunkFile (chunk : SearchIndex).

Definition maxEntriesPerChunk : nat := 1000.

Definition metadataPath : string := "search-index-metadata.json".
Definition outputPath : string := "search-index.json".
Definition chunkPath (chunkName : string) : string := "search-index-" ++ chunkName ++ ".json".

(** The inner [while] loop: the files it moves into [chunkFiles], and the
    files left for the next chunk. *)
Fixpoint take_chunk (files : SearchIndex) (entriesCount : nat) (chunkFiles : SearchIndex)
    : SearchIndex * SearchIndex :=
  match files with
  | [] => (chunkFiles, [])
  | (file, fileEntries) :: rest =>
      if (entriesCount <? maxEntriesPerChunk)%nat then
        if (maxEntriesPerChunk <? entriesCount + List.length fileEntries)%nat
           && (0 <? List.length chunkFiles)%nat
        then (chunkFiles, files)
        else take_chunk rest (entriesCount + List.length fileEntries)
               (chunkFiles ++ [(file, fileEntries)])%list
      else (chunkFiles, files)
  end.

(** The outer [for] loop: the chunks, in order. *)
Fixpoint chunk_groups (fuel : nat) (files : SearchIndex) : list SearchIndex :=
  match fuel with
  | O => []
  | S fuel' =>
      match files with
      | [] => []
      | _ :: _ => let '(chunk, rest) := take_chunk files 0 [] in chunk :: chunk_groups fuel' rest
      end
  end.

Definition chunks_of (index : SearchIndex) : list SearchIndex :=
  chunk_groups (List.length index) index.

Definition chunk_names (chunkPrefix : string) (chunks : list SearchIndex) : list string :=
  imap (fun chunkIndex _ => chunkPrefix ++ "-" ++ nat_to_string chunkIndex) chunks.

Definition totalEntries (index : SearchIndex) : nat :=
  fold_left (fun sum kv => sum + List.length (snd kv)) index 0.

Section Writer.
Variable fits : SearchIndex -> bool.

Definition write_chunk (recurse : SearchIndex -> string -> option (list (string * Written)))
    (acc : option (list (string * Written))) (chunk : string * SearchIndex)
    : option (list (string * Written)) :=
  match acc with
  | None => None
  | Some ws =>
      let '(chunkName, chunkIndexObj) := chunk in
      if fits chunkIndexObj then Some (ws ++ [(chunkPath chunkName, ChunkFile chunkIndexObj)])%list
      else match recurse chunkIndexObj chunkName with
           | None => None
           | Some ws' => Some (ws ++ ws')%list
           end
  end.

(** [writeChunkedSearchIndex]; [depth] bounds the call stack, and running
    out of it is the [RangeError] of a stack overflow, thrown on. *)
Fixpoint writeChunkedSearchIndex (depth : nat) (index : SearchIndex) (chunkPrefix : string)
    : option (list (string * Written)) :=
  match depth with
  | O => None
  | S depth' =>
      let chunks := chunks_of index in
      let names := chunk_names chunkPrefix chunks in
      fold_left (write_chunk (writeChunkedSearchIndex depth'))
        (combine names chunks)
        (Some [(metadataPath, Manifest names (List.length index) (totalEntries index))])
  end.

Definition writeSearchIndex (depth : nat) (index : SearchIndex) : option (list (string * Written)) :=
  if fits index then Some [(outputPath, Whole index)]
  else writeChunkedSearchIndex depth index "chunk".

Lemma fold_write_chunk_none (recurse : SearchIndex -> string -> option (list (string * Written)))
    (chunks : list (string * SearchIndex)) :
  fold_left (write_chunk recurse) chunks None = None.
Proof. induction chunks; simpl; auto. Qed.

(** When every chunk that does not serialize fails its recursive write,
    a successful pass wrote every chunk directly. *)
Lemma fold_write_chunk_some (recurse : SearchIndex -> string -> option (list (string * Written)))
    (chunks : list (string * SearchIndex)) (ws ws' : list (string * Written)) :
  (forall name c, (name, c) ∈ chunks -> fits c = false -> recurse c name = None) ->
  fold_left (write_chunk recurse) chunks (Some ws) = Some ws' ->
  (forall name c, (name, c) ∈ chunks -> fits c = true) /\
  ws' = (ws ++ map (fun '(name, c) => (chunkPath name, ChunkFile c)) chunks)%list.
Proof.
  revert ws. induction chunks as [|[name c] chunks IH]; intros ws Hrec Hfold; simpl in *.
  - injection Hfold as <-. split; [set_solver | by rewrite app_nil_r].
  - destruct (fits c) eqn:Hc.
    + destruct (IH (ws ++ [(chunkPath name, ChunkFile c)])%list) as [Hall ->].
      * intros n c' Hin. apply Hrec. set_solver.
      * exact Hfold.
      * split.
        -- intros n c' Hin. apply elem_of_cons in Hin as [Heq|Hin];
             [injection Heq as -> ->; exact Hc | exact (Hall n c' Hin)].
        -- by rewrite <- app_assoc.
    + rewrite (Hrec name c) in Hfold by (set_solver || exact Hc).
      rewrite fold_write_chunk_none in Hfold. discriminate.
Qed.

End Writer.

Lemma take_chunk_shape (files : SearchIndex) (n : nat) (acc acc' rest : SearchIndex) :
  take_chunk files n acc = (acc', rest) ->
  exists c, acc' = (acc ++ c)%list /\ files = (c ++ rest)%list /\ take_chunk c n acc = (acc', []).
Proof.
  revert n acc. induction files as [|[f es] files IH]; intros n acc Ht; simpl in Ht.
  - injection Ht as <- <-. exists []. rewrite app_nil_r. auto.
  - destruct (n <? maxEntriesPerChunk)%nat eqn:Hn.
    + destruct ((maxEntriesPerChunk <? n + List.length es)%nat && (0 <? List.length acc)%nat) eqn:Hb.
      * injection Ht as <- <-. exists []. rewrite app_nil_r. auto.
      * destruct (IH _ _ Ht) as (c & Hacc & Hfiles & Hc).
        exists ((f, es) :: c). split; [|split].
        -- rewrite Hacc, <- app_assoc. reflexivity.
        -- rewrite Hfiles. reflexivity.
        -- simpl. rewrite Hn, Hb. exact Hc.
    + injection Ht as <- <-. exists []. rewrite app_nil_r. auto.
Qed.

Lemma take_chunk_first (f : string) (es : list SearchEntry) (files : SearchIndex) (acc rest : SearchIndex) :
  take_chunk ((f, es) :: files) 0 [] = (acc, rest) ->
  exists c, acc = (f, es) :: c /\ files = (c ++ rest)%list.
Proof.
  simpl. intros Ht. change ((0 <? 0)%nat) with false in Ht. rewrite andb_false_r in Ht.
  destruct (take_chunk_shape _ _ _ _ _ Ht) as (c & Hacc & Hfiles & _).
  exists c. split; [exact Hacc | exact Hfiles].
Qed.

Lemma chunk_groups_concat (fuel : nat) (files : SearchIndex) :
  List.length files <= fuel -> List.concat (chunk_groups fuel files) = files.
Proof.
  revert files. induction fuel as [|fuel IH]; intros files Hl; simpl.
  - destruct files; simpl in *; [reflexivity | lia].
  - destruct files as [|[f es] files]; [reflexivity|].
    destruct (take_chunk ((f, es) :: files) 0 []) as [chunk rest] eqn:Ht.
    destruct (take_chunk_first _ _ _ _ _ Ht) as (c & -> & Hfiles).
    simpl. rewrite IH.
    + rewrite Hfiles. reflexivity.
    + simpl in Hl. rewrite Hfiles, length_app in Hl. lia.
Qed.

Lemma chunk_groups_taken (fuel : nat) (files g : SearchIndex) :
  g ∈ chunk_groups fuel files -> g <> [] /\ exists files' rest, take_chunk files' 0 [] = (g, rest).
Proof.
  revert files. induction fuel as [|fuel IH]; intros files Hg; simpl in Hg; [set_solver|].
  destruct files as [|[f es] files]; [set_solver|].
  destruct (take_chunk ((f, es) :: files) 0 []) as [chunk rest] eqn:Ht.
  apply elem_of_cons in Hg as [->|Hg]; [|exact (IH _ Hg)].
  destruct (take_chunk_first _ _ _ _ _ Ht) as (c & -> & _).
  split; [discriminate|]. eauto.
Qed.

Lemma chunk_groups_cons (fuel : nat) (x : string * list SearchEntry) (files : SearchIndex) :
  chunk_groups (S fuel) (x :: files) =
  let '(chunk, rest) := take_chunk (x :: files) 0 [] in chunk :: chunk_groups fuel rest.
Proof. reflexivity. Qed.

(** A chunk, chunked again, is that one chunk. *)
Lemma rechunk_single (files g rest : SearchIndex) :
  g <> [] -> take_chunk files 0 [] = (g, rest) -> chunks_of g = [g].
Proof.
  intros Hne Ht.
  destruct (take_chunk_shape _ _ _ _ _ Ht) as (c & Hg & _ & Hc).
  simpl in Hg. subst g.
  unfold chunks_of. destruct c as [|[f es] c']; [congruence|].
  change (List.length ((f, es) :: c')) with (S (List.length c')).
  rewrite chunk_groups_cons, Hc.
  destruct (List.length c'); reflexivity.
Qed.

(** A file with more than [maxEntriesPerChunk] entries sits alone in
    its chunk. *)
Lemma take_chunk_big_alone (files : SearchIndex) (n : nat) (acc acc' rest : SearchIndex)
    (f : string) (es : list SearchEntry) :
  take_chunk files n acc = (acc', rest) ->
  (f, es) ∈ acc' -> (maxEntriesPerChunk < List.length es)%nat ->
  (f, es) ∈ acc \/ (acc = [] /\ acc' = [(f, es)]).
Proof.
  revert n acc. induction files as [|[f' es'] files IH]; intros n acc Ht Hin Hbig; simpl in Ht.
  - injection Ht as <- <-. auto.
  - destruct (n <? maxEntriesPerChunk)%nat eqn:Hn; [|injection Ht as <- <-; auto].
    destruct ((maxEntriesPerChunk <? n + List.length es')%nat && (0 <? List.length acc)%nat) eqn:Hb;
      [injection Ht as <- <-; auto|].
    destruct (IH _ _ Ht Hin Hbig) as [Hin'|[Hnil _]].
    + apply elem_of_app in Hin' as [Hin'|Hin']; [auto|].
      apply list_elem_of_singleton in Hin'. injection Hin' as <- <-.
      right.
      assert (Hacc : acc = []).
      { destruct acc as [|a acc]; [reflexivity|].
        exfalso. apply andb_false_iff in Hb as [Hb|Hb]; apply Nat.ltb_ge in Hb;
          simpl in Hb; lia. }
      subst acc. split; [reflexivity|].
      simpl in Ht. destruct files as [|[f2 es2] files].
      * simpl in Ht. congruence.
      * simpl in Ht.
        rewrite (proj2 (Nat.ltb_ge (n + List.length es) maxEntriesPerChunk)) in Ht by lia.
        congruence.
    + destruct acc; discriminate Hnil.
Qed.

Lemma chunk_big_alone (index g : SearchIndex) (f : string) (es : list SearchEntry) :
  g ∈ chunks_of index -> (f, es) ∈ g -> (maxEntriesPerChunk < List.length es)%nat ->
  g = [(f, es)].
Proof.
  intros Hg Hin Hbig.
  destruct (chunk_groups_taken _ _ _ Hg) as (_ & files' & rest & Ht).
  destruct (take_chunk_big_alone _ _ _ _ _ _ _ Ht Hin Hbig) as [H|[_ H]]; [set_solver | exact H].
Qed.

(** Re-chunking a chunk that does not serialize never succeeds. *)
Lemma rechunk_fails (fits : SearchIndex -> bool) (depth : nat) (g : SearchIndex) (name : string) :
  chunks_of g = [g] -> fits g = false -> writeChunkedSearchIndex fits depth g name = None.
Proof.
  revert name. induction depth as [|depth IH]; intros name Hsingle Hfits; [reflexivity|].
  simpl. rewrite Hsingle. simpl. rewrite Hfits, IH by assumption. reflexivity.
Qed.

Lemma combine_elem_r {A B} (l : list A) (m : list B) (a : A) (b : B) :
  (a, b) ∈ combine l m -> b ∈ m.
Proof.
  revert m. induction l as [|x l IH]; intros m Hin; simpl in Hin; [set_solver|].
  destruct m as [|y m]; [set_solver|].
  apply elem_of_cons in Hin as [Heq|Hin]; [injection Heq as -> ->; set_solver|].
  apply elem_of_cons. right. exact (IH m Hin).
Qed.

Lemma length_chunk_names (p : string) (chunks : list SearchIndex) :
  List.length (chunk_names p chunks) = List.length chunks.
Proof. unfold chunk_names. apply length_imap. Qed.

(** A chunk that does not serialize and whose recursive write fails
    makes the whole pass fail. *)
Lemma fold_write_chunk_fail (fits : SearchIndex -> bool)
    (recurse : SearchIndex -> string -> option (list (string * Written)))
    (chunks : list (string * SearchIndex)) (acc : option (list (string * Written)))
    (name : string) (c : SearchIndex) :
  (name, c) ∈ chunks -> fits c = false -> recurse c name = None ->
  fold_left (write_chunk fits recurse) chunks acc = None.
Proof.
  revert acc. induction chunks as [|[n c'] chunks IH]; intros acc Hin Hc Hr; [set_solver|].
  simpl. apply elem_of_cons in Hin as [Heq|Hin].
  - injection Heq as <- <-. destruct acc as [ws|]; simpl; [|apply fold_write_chunk_none].
    rewrite Hc, Hr. apply fold_write_chunk_none.
  - exact (IH _ Hin Hc Hr).
Qed.

Lemma combine_elem_r_exists {A B} (l : list A) (m : list B) (b : B) :
  List.length l = List.length m -> b ∈ m -> exists a, (a, b) ∈ combine l m.
Proof.
  revert m. induction l as [|x l IH]; intros [|y m] Hlen Hin; simpl in *; try lia; [set_solver|].
  apply elem_of_cons in Hin as [->|Hin]; [exists x; set_solver|].
  destruct (IH m ltac:(lia) Hin) as [a Ha]. exists a. set_solver.
Qed.

End Chunking.

(** ** Claims on writing the search index *)

Module ChunkClaims.
Import JsString Search Chunking.

Definition entries_n (n : nat) : list SearchEntry := repeat (mkEntry TCode "x" None None None) n.

(** A document of 1500 entries, more than a chunk's cap, followed by one
    of 10. *)
Definition example_index : SearchIndex :=
  [("Big.html", entries_n 1500); ("Small.html", entries_n 10)].

(** Serialization fails above 999 entries. *)
Definition fits_999 (x : SearchIndex) : bool := (totalEntries x <=? 999)%nat.

(** C4 (failing input): when the whole index does not serialize, a
    chunk that does not serialize either is handed to the recursive
    call, which re-chunks it into that same single chunk (the comment
    says "If still too big, split further", but no document is ever
    split): every level of the recursion finds the same chunk too large,
    no call ever writes it, and the call stack runs out, so the whole
    write throws. *)
Theorem chunk_too_large_never_split
    (fits : SearchIndex -> bool) (depth : nat) (index c : SearchIndex) :
  fits index = false -> c ∈ chunks_of index -> fits c = false ->
  chunks_of c = [c] /\
  (forall depth' name, writeChunkedSearchIndex fits depth' c name = None) /\
  writeSearchIndex fits depth index = None.
Proof.
  intros Hfits Hc Hcfits.
  destruct (chunk_groups_taken _ _ _ Hc) as (Hne & files' & rest & Ht).
  assert (Hsingle : chunks_of c = [c]) by exact (rechunk_single _ _ _ Hne Ht).
  assert (Hrec : forall depth' name, writeChunkedSearchIndex fits depth' c name = None).
  { intros depth' name. apply rechunk_fails; assumption. }
  split; [exact Hsingle|]. split; [exact Hrec|].
  unfold writeSearchIndex. rewrite Hfits.
  destruct depth as [|depth]; [reflexivity|]. simpl.
  destruct (combine_elem_r_exists (chunk_names "chunk" (chunks_of index)) (chunks_of index) c)
    as [name Hname]; [apply length_chunk_names | exact Hc|].
  apply (fold_write_chunk_fail fits _ _ _ name c Hname Hcfits (Hrec depth name)).
Qed.

Lemma chunk_too_large_never_split_witness :
  chunks_of [("Big.html", entries_n 1500)] = [[("Big.html", entries_n 1500)]] /\
  (forall depth' name, writeChunkedSearchIndex fits_999 depth' [("Big.html", entries_n 1500)] name = None) /\
  writeSearchIndex fits_999 50 example_index = None.
Proof.
  apply (chunk_too_large_never_split fits_999 50 example_index [("Big.html", entries_n 1500)]).
  - vm_compute. reflexivity.
  - vm_compute. left.
  - vm_compute. reflexivity.
Defined.

End ChunkClaims.

(** * Handing the mapping table over (indexer.ts, [getGlobalMappings]
    and [setGlobalMappings])

    JavaScript objects live in a heap; a property holds a number or a
    reference.  The static field [globalPositionMappings] holds a
    reference to the table, whose properties reference the per-document
    sub-maps. *)

Module SharedMappings.

Inductive Val := VNum (n : nat) | VRef (l : positive).

Abbreviation Obj := (gmap string Val).
Abbreviation Heap := (gmap positive Obj).

Record State := mkState {
  heap : Heap;
  globalPositionMappings : positive
}.

Definition alloc (h : Heap) (o : Obj) : Heap * positive :=
  let l := fresh (dom h) in (<[l := o]> h, l).

(** [{ ...obj }]: a new object with [obj]'s own properties; references
    are copied as references. *)
Definition spread (h : Heap) (l : positive) : Heap * positive :=
  alloc h (default ∅ (h !! l)).

(** [getGlobalMappings()]: the state after the call, and the returned reference. *)
Definition getGlobalMappings (s : State) : State * positive :=
  let '(h, l) := spread (heap s) (globalPositionMappings s) in
  (mkState h (globalPositionMappings s), l).

(** [setGlobalMappings(mappings)] *)
Definition setGlobalMappings (s : State) (mappings : positive) : State :=
  let '(h, l) := spread (heap s) mappings in mkState h l.

(** [obj[k] = v] *)
Definition set_prop (h : Heap) (l : positive) (k : string) (v : Val) : Heap :=
  match h !! l with
  | Some o => <[l := <[k := v]> o]> h
  | None => h
  end.

(** [obj[doc][a] = v], for a [doc] that holds a sub-map. *)
Definition set_nested (h : Heap) (l : positive) (doc a : string) (v : Val) : Heap :=
  match h !! l with
  | Some o => match o !! doc with
              | Some (VRef l') => set_prop h l' a v
              | _ => h
              end
  | None => h
  end.

(** [obj[doc][a]], read through the table at [l]. *)
Definition read (h : Heap) (l : positive) (doc a : string) : option Val :=
  match h !! l with
  | Some o => match o !! doc with
              | Some (VRef l') => h !! l' ≫= (.!! a)
              | _ => None
              end
  | None => None
  end.

(** The sub-map reference a table holds for [doc]. *)
Definition sub_map (h : Heap) (l : positive) (doc : string) : option positive :=
  match (h !! l) ≫= (.!! doc) with
  | Some (VRef l') => Some l'
  | _ => None
  end.

Lemma alloc_fresh (h : Heap) (o : Obj) :
  (fst (alloc h o)) !! snd (alloc h o) = Some o /\ (snd (alloc h o) ∉ dom h) /\
  forall l, l ∈ dom h -> fst (alloc h o) !! l = h !! l.
Proof.
  unfold alloc. simpl. split; [|split].
  - apply lookup_insert_eq.
  - apply is_fresh.
  - intros l Hl. apply lookup_insert_ne. intros <-. exact (is_fresh (dom h) Hl).
Qed.

(** A write through a sub-map reference [l'] that the table at [l] holds
    is seen by a read through that table. *)
Lemma set_nested_read (h : Heap) (lt l : positive) (doc a : string) (v : Val) (o : Obj) (l' : positive) :
  h !! lt = Some o -> o !! doc = Some (VRef l') -> l' ∈ dom h -> l' <> l ->
  h !! l = Some o ->
  read (set_nested h lt doc a v) l doc a = Some v.
Proof.
  intros Hlt Hdoc Hl' Hne Hl.
  unfold set_nested. rewrite Hlt, Hdoc.
  unfold set_prop. apply elem_of_dom in Hl' as [o' Ho']. rewrite Ho'.
  unfold read. rewrite lookup_insert_ne by congruence. rewrite Hl, Hdoc.
  rewrite lookup_insert_eq. simpl. apply lookup_insert_eq.
Qed.

End SharedMappings.

(** ** Claims on handing the mapping table over *)

Module SharedMappingsClaims.
Import SharedMappings.

(** The table at 1 holds the sub-map of [M.html] at 2, where anchor
    [100] is on line 5. *)
Definition state_ex : State :=
  mkState {[ 1%positive := {[ "M.html" := VRef 2 ]};
             2%positive := {[ "100" := VNum 5 ]} ]} 1.

(** C9 (counterexample): writing [T["M.html"]["100"] = 7] into the table
    [T] returned by [getGlobalMappings] changes what the indexer's own
    table reads for [M.html], anchor [100], from 5 to 7. *)
Lemma nested_write_through_copy_visible :
  read (heap state_ex) (globalPositionMappings state_ex) "M.html" "100" = Some (VNum 5) /\
  read (set_nested (heap (fst (getGlobalMappings state_ex))) (snd (getGlobalMappings state_ex))
          "M.html" "100" (VNum 7))
       (globalPositionMappings (fst (getGlobalMappings state_ex))) "M.html" "100" = Some (VNum 7).
Proof. split; vm_compute; reflexivity. Qed.

(** C9 (amended): [getGlobalMappings] and [setGlobalMappings] copy the
    table's top level only.  Setting a property of the table [T] that
    [getGlobalMappings] returned, or that was passed to
    [setGlobalMappings], leaves the indexer's table unchanged; but [T]
    and the indexer's table share each per-document sub-map, so a write
    into a sub-map through [T] is seen by the indexer. *)
Theorem mapping_handover_copies_top_level_only
    (s : State) (mappings : positive) (k doc a : string) (v w : Val) (lg lm : positive) :
  globalPositionMappings s ∈ dom (heap s) -> mappings ∈ dom (heap s) ->
  sub_map (heap s) (globalPositionMappings s) doc = Some lg -> lg ∈ dom (heap s) ->
  lg <> globalPositionMappings s ->
  sub_map (heap s) mappings doc = Some lm -> lm ∈ dom (heap s) ->
  (* after T = getGlobalMappings() *)
  set_prop (heap (fst (getGlobalMappings s))) (snd (getGlobalMappings s)) k w
    !! globalPositionMappings (fst (getGlobalMappings s)) =
    heap s !! globalPositionMappings s /\
  read (set_nested (heap (fst (getGlobalMappings s))) (snd (getGlobalMappings s)) doc a v)
       (globalPositionMappings (fst (getGlobalMappings s))) doc a = Some v /\
  (* after setGlobalMappings(mappings) *)
  set_prop (heap (setGlobalMappings s mappings)) mappings k w
    !! globalPositionMappings (setGlobalMappings s mappings) =
    heap s !! mappings /\
  read (set_nested (heap (setGlobalMappings s mappings)) mappings doc a v)
       (globalPositionMappings (setGlobalMappings s mappings)) doc a = Some v.
Proof.
  intros Hg Hm Hlg Hlgd Hlgne Hlm Hlmd.
  pose proof (alloc_fresh (heap s) (default ∅ (heap s !! globalPositionMappings s)))
    as (HgT & HgF & HgK).
  pose proof (alloc_fresh (heap s) (default ∅ (heap s !! mappings)))
    as (HmT & HmF & HmK).
  unfold getGlobalMappings, setGlobalMappings, spread in *.
  destruct (alloc (heap s) (default ∅ (heap s !! globalPositionMappings s))) as [h1 t] eqn:E1.
  destruct (alloc (heap s) (default ∅ (heap s !! mappings))) as [h2 c] eqn:E2.
  simpl in *.
  apply elem_of_dom in Hg as [og Hog]. apply elem_of_dom in Hm as [om Hom].
  rewrite Hog in HgT. rewrite Hom in HmT. simpl in HgT, HmT.
  assert (Htg : t <> globalPositionMappings s) by (intros ->; apply HgF; apply elem_of_dom; eauto).
  assert (Hcm : c <> mappings) by (intros ->; apply HmF; apply elem_of_dom; eauto).
  unfold sub_map in Hlg, Hlm. rewrite Hog in Hlg. rewrite Hom in Hlm. simpl in Hlg, Hlm.
  destruct (og !! doc) as [[|lg']|] eqn:Hogd; try discriminate. injection Hlg as ->.
  destruct (om !! doc) as [[|lm']|] eqn:Homd; try discriminate. injection Hlm as ->.
  split; [|split; [|split]].
  - unfold set_prop. rewrite HgT. rewrite lookup_insert_ne by congruence.
    rewrite HgK by (apply elem_of_dom; eauto). reflexivity.
  - apply (set_nested_read h1 t (globalPositionMappings s) doc a v og lg).
    + exact HgT.
    + exact Hogd.
    + apply elem_of_dom. rewrite HgK by exact Hlgd. apply elem_of_dom. exact Hlgd.
    + exact Hlgne.
    + rewrite HgK by (apply elem_of_dom; eauto). exact Hog.
  - unfold set_prop. rewrite HmK by (apply elem_of_dom; eauto). rewrite Hom.
    rewrite lookup_insert_ne by congruence. exact HmT.
  - unfold set_nested. rewrite HmK by (apply elem_of_dom; eauto). rewrite Hom, Homd.
    unfold set_prop. rewrite HmK by exact Hlmd.
    apply elem_of_dom in Hlmd as [ol Hol]. rewrite Hol.
    assert (Hcl : c <> lm) by (intros ->; apply HmF; apply elem_of_dom; eauto).
    unfold read. rewrite lookup_insert_ne by congruence. rewrite HmT, Homd.
    rewrite lookup_insert_eq. simpl. apply lookup_insert_eq.
Qed.

Lemma mapping_handover_copies_top_level_only_witness :
  set_prop (heap (fst (getGlobalMappings state_ex))) (snd (getGlobalMappings state_ex)) "A.html" (VNum 0)
    !! globalPositionMappings (fst (getGlobalMappings state_ex)) =
    heap state_ex !! globalPositionMappings state_ex /\
  read (set_nested (heap (fst (getGlobalMappings state_ex))) (snd (getGlobalMappings state_ex))
          "M.html" "100" (VNum 7))
       (globalPositionMappings (fst (getGlobalMappings state_ex))) "M.html" "100" = Some (VNum 7) /\
  set_prop (heap (setGlobalMappings state_ex 1)) 1 "A.html" (VNum 0)
    !! globalPositionMappings (setGlobalMappings state_ex 1) =
    heap state_ex !! 1%positive /\
  read (set_nested (heap (setGlobalMappings state_ex 1)) 1 "M.html" "100" (VNum 7))
       (globalPositionMappings (setGlobalMappings state_ex 1)) "M.html" "100" = Some (VNum 7).
Proof.
  apply (mapping_handover_copies_top_level_only state_ex 1 "A.html" "M.html" "100"
           (VNum 7) (VNum 0) 2 2); vm_compute; try reflexivity; try discriminate;
    apply elem_of_dom; vm_compute; eauto.
Defined.

End SharedMappingsClaims.

(** * Further properties of the code *)

Module StringFacts.
Import JsString Search.

Lemma parse_string_of_uint (u : Decimal.uint) (acc : nat) :
  fold_left (fun n c => 10 * n + (nat_of_ascii c - 48))
    (list_ascii_of_string (NilEmpty.string_of_uint u)) acc = Nat.of_uint_acc u acc.
Proof.
  revert acc. induction u; intros acc; simpl; rewrite ?IHu, ?Nat.tail_mul_spec; f_equal; lia.
Qed.

(** [parseInt(`${n}`) === n] *)
Lemma parseInt_nat_to_string (n : nat) : parseInt_digits (nat_to_string n) = n.
Proof.
  rewrite <- (DecimalNat.Unsigned.of_to n) at 2.
  unfold parseInt_digits, nat_to_string, NilZero.string_of_uint, Nat.of_uint.
  destruct (Nat.to_uint n); [reflexivity| ..]; apply parse_string_of_uint.
Qed.

Lemma nat_to_string_inj (n m : nat) : nat_to_string n = nat_to_string m -> n = m.
Proof.
  intros H. rewrite <- (parseInt_nat_to_string n), <- (parseInt_nat_to_string m).
  by rewrite H.
Qed.

Lemma nat_to_string_nonempty (n : nat) : nat_to_string n <> "".
Proof.
  unfold nat_to_string, NilZero.string_of_uint.
  destruct (Nat.to_uint n); discriminate.
Qed.

Lemma string_app_nil_r (s : string) : s ++ "" = s.
Proof. induction s as [|c s IH]; [reflexivity|]. rewrite append_cons. congruence. Qed.

(** Two strings made of a run of digits, a non-digit and a rest agree
    on all three when they are equal. *)
Lemma first_nondigit_unique (d d' r r' : string) (c c' : ascii) :
  all_digits d = true -> all_digits d' = true -> is_digit c = false -> is_digit c' = false ->
  d ++ String c r = d' ++ String c' r' -> d = d' /\ c = c' /\ r = r'.
Proof.
  revert d'. induction d as [|a d IH]; intros d' Hd Hd' Hc Hc' Heq;
    destruct d' as [|a' d']; rewrite ?append_cons, ?append_nil_l in Heq.
  - by injection Heq as -> ->.
  - injection Heq as -> _. simpl in Hd'. by rewrite Hc in Hd'.
  - injection Heq as <- _. simpl in Hd. by rewrite Hc' in Hd.
  - injection Heq as <- Heq. simpl in Hd, Hd'.
    apply andb_prop in Hd as [_ Hd]. apply andb_prop in Hd' as [_ Hd'].
    destruct (IH d' Hd Hd' Hc Hc' Heq) as (-> & -> & ->). done.
Qed.

(** Two strings ending in a non-digit followed by a run of digits agree
    on all three when they are equal. *)
Lemma last_nondigit_unique (x y d e : string) (c c' : ascii) :
  all_digits d = true -> all_digits e = true -> is_digit c = false -> is_digit c' = false ->
  x ++ String c d = y ++ String c' e -> x = y /\ c = c' /\ d = e.
Proof.
  revert y. induction x as [|a x IH]; intros y Hd He Hc Hc' Heq;
    destruct y as [|b y]; rewrite ?append_cons, ?append_nil_l in Heq.
  - by injection Heq as -> ->.
  - injection Heq as -> Hy. subst d.
    rewrite all_digits_app in Hd. simpl in Hd. by rewrite Hc', andb_false_r in Hd.
  - injection Heq as <- Hx. subst e.
    rewrite all_digits_app in He. simpl in He. by rewrite Hc, andb_false_r in He.
  - injection Heq as <- Heq. destruct (IH y Hd He Hc Hc' Heq) as (-> & -> & ->). done.
Qed.

(** The run of digits in front of [d ++ rest] is [d] when [rest] does not
    start with a digit. *)
Lemma digit_run_app (d rest : string) :
  all_digits d = true ->
  (match rest with String c _ => is_digit c = false | EmptyString => True end) ->
  digit_run (d ++ rest) = (d, rest).
Proof.
  intros Hd Hr. induction d as [|c d IH]; simpl in *.
  - destruct rest as [|c r]; simpl; [reflexivity|]. by rewrite Hr.
  - apply andb_prop in Hd as [Hc Hd]. rewrite Hc, IH by exact Hd. reflexivity.
Qed.

Lemma line_match_unfold (s : string) :
  line_match s = match line_match_at s with
                 | Some d => Some d
                 | None => match s with
                           | EmptyString => None
                           | String _ s' => line_match s'
                           end
                 end.
Proof. by destruct s. Qed.

(** [/B\d+-LC(\d+)/] on [B<k>-LC<n>] captures [n]. *)
Lemma line_match_block_line (k n : nat) :
  line_match ("B" ++ nat_to_string k ++ "-LC" ++ nat_to_string n) = Some (nat_to_string n).
Proof.
  rewrite line_match_unfold. unfold line_match_at.
  change ("B" ++ nat_to_string k ++ "-LC" ++ nat_to_string n)
    with (String "B" (nat_to_string k ++ "-LC" ++ nat_to_string n)).
  simpl.
  rewrite digit_run_app by (first [apply all_digits_nat_to_string | reflexivity]).
  destruct (String.eqb_spec (nat_to_string k) "") as [H|_];
    [by apply nat_to_string_nonempty in H|].
  simpl.
  rewrite append_nil_l, <- (string_app_nil_r (nat_to_string n)) at 1.
  rewrite digit_run_app by (first [apply all_digits_nat_to_string | exact I]).
  destruct (String.eqb_spec (nat_to_string n) "") as [H|_];
    [by apply nat_to_string_nonempty in H|].
  reflexivity.
Qed.

Fixpoint has_B (s : string) : bool :=
  match s with
  | EmptyString => false
  | String c s' => Ascii.eqb c "B" || has_B s'
  end.

Lemma has_B_app (s t : string) : has_B (s ++ t) = has_B s || has_B t.
Proof. induction s as [|c s IH]; [reflexivity|]. rewrite append_cons. simpl. rewrite IH. apply orb_assoc. Qed.

Lemma has_B_digits (s : string) : all_digits s = true -> has_B s = false.
Proof.
  induction s as [|c s IH]; simpl; [reflexivity|].
  intros H. apply andb_prop in H as [Hc H]. rewrite IH by exact H.
  destruct (Ascii.eqb_spec c "B") as [->|_]; [discriminate Hc | reflexivity].
Qed.

(** Without a [B], the pattern [/B\d+-LC(\d+)/] finds nothing. *)
Lemma line_match_no_B (s : string) : has_B s = false -> line_match s = None.
Proof.
  induction s as [|c s IH]; intros H; [reflexivity|].
  simpl in H. apply orb_false_iff in H as [Hc H].
  rewrite line_match_unfold. unfold line_match_at. rewrite Hc. exact (IH H).
Qed.

Lemma elem_of_imap_inv {A B} (f : nat -> A -> B) (l : list A) (y : B) :
  y ∈ imap f l -> exists i x, l !! i = Some x /\ y = f i x.
Proof.
  intros Hy. apply list_elem_of_lookup in Hy as [i Hi].
  apply list_lookup_imap_Some in Hi as (x & Hx & ->). eauto.
Qed.

End StringFacts.

(** ** The line numbering that the command line runs
    ([addLineNumbersToCodeBlocks], [src/src/transformer.ts]): the same
    split, filter and [&nbsp;] rule as in [types.ts], but the ids carry
    no block: [L<n>] and [LC<n>]. *)

Module TransformerLines.
Import JsString LineNumbering.

Definition number_line (index : nat) (line : string) : Line :=
  let lineNum := S index in
  mkLine lineNum ("L" ++ nat_to_string lineNum) ("LC" ++ nat_to_string lineNum)
         (line_markup line).

Definition number_lines (originalContent : string) : list Line :=
  imap number_line (actual_lines (split_on "010" originalContent)).

End TransformerLines.

(** ** The indexer's own line numbering ([addLineNumbersToElementsInDocument],
    [src/src/indexer.ts]): the [code-line] divs it writes, as pairs of
    id and markup. *)

Module IndexerLines.
Import JsString LineNumbering.

(** The batched version (lines 346-390): [block-<k>] and [block-<k>-LC<n>]. *)
Definition block_id (blockIndex : nat) : string := "block-" ++ nat_to_string (S blockIndex).

Definition code_line (blockId : string) (index : nat) (line : string) : string * string :=
  (blockId ++ "-LC" ++ nat_to_string (S index), line_markup line).

Definition number_lines (blockIndex : nat) (originalContent : string) : list (string * string) :=
  imap (code_line (block_id blockIndex)) (actual_lines (split_on "010" originalContent)).

(** The synchronous version (lines 153-190): [LC<n>]. *)
Definition sync_code_line (index : nat) (line : string) : string * string :=
  ("LC" ++ nat_to_string (S index), line_markup line).

Definition number_lines_sync (originalContent : string) : list (string * string) :=
  imap sync_code_line (actual_lines (split_on "010" originalContent)).

End IndexerLines.

(** ** Line ids as the search-index builder reads them *)

Module LineIdFacts.
Import JsString LinkRewriter LineNumbering Search StringFacts.

(** X1: the content id [B<k>-LC<n>] that [types.ts] gives a line is
    parsed back by the search-index builder into that line's number:
    every entry the line yields carries it, and a line whose text is
    not blank yields at least its own entry. *)
Theorem types_line_ids_give_search_line_numbers
    (k : nat) (originalContent : string) (l : Line)
    (pm : list (string * nat)) (allLines : list SLine) (index : nat)
    (txt : string) (idents : list (string * string)) :
  l ∈ LineNumbering.number_lines (block_id k) originalContent ->
  (forall e, e ∈ line_entries pm allLines index (mkSLine (line_content_id l) txt idents) ->
     lineNumber e = Some (line_num l)) /\
  (trim txt <> "" ->
   exists rest, line_entries pm allLines index (mkSLine (line_content_id l) txt idents) =
     mkEntry TCode (trim txt) (Some (line_num l)) None
       (Some (fullContext allLines index (trim txt))) :: rest).
Proof.
  intros Hl. apply elem_of_imap_inv in Hl as (i & line & _ & ->).
  unfold LineNumbering.number_line, line_entries, block_id.
  cbn [line_content_id line_num sl_id sl_text sl_idents].
  rewrite string_app_assoc, line_match_block_line, parseInt_nat_to_string.
  assert (Hne : String.eqb ("B" ++ nat_to_string (S k) ++ "-LC" ++ nat_to_string (S i)) "" = false)
    by reflexivity.
  rewrite Hne.
  split.
  - destruct (String.eqb (trim txt) ""); [set_solver|].
    intros e He. apply elem_of_cons in He as [->|He]; [reflexivity|].
    apply elem_of_concat_map in He as ([id t] & _ & He). simpl in He.
    destruct (String.eqb id "" || nonempty_digits id); [set_solver|].
    destruct (String.eqb (trim t) ""); [set_solver|].
    apply list_elem_of_singleton in He as ->. reflexivity.
  - intros Ht. destruct (String.eqb_spec (trim txt) "") as [H|_]; [contradiction|].
    eexists. reflexivity.
Qed.

Lemma types_line_ids_give_search_line_numbers_witness :
  (forall e, e ∈ line_entries [] [] 0 (mkSLine (line_content_id (number_line "B1" 0 "x")) "x" []) ->
     lineNumber e = Some (line_num (number_line "B1" 0 "x"))) /\
  (trim "x" <> "" ->
   exists rest, line_entries [] [] 0 (mkSLine (line_content_id (number_line "B1" 0 "x")) "x" []) =
     mkEntry TCode (trim "x") (Some (line_num (number_line "B1" 0 "x"))) None
       (Some (fullContext [] 0 (trim "x"))) :: rest).
Proof.
  apply (types_line_ids_give_search_line_numbers 0 "x").
  vm_compute. left.
Defined.

(** X2: the content ids that the command line's transformer writes
    ([LC<n>]), and those of the indexer's numbering, both the batched
    ([block-<k>-LC<n>]) and the synchronous one ([LC<n>]), never match
    [/B\d+-LC(\d+)/]: a code line carrying one of them yields no search
    entry, whatever its text. *)
Theorem transformer_and_indexer_line_ids_give_no_search_entry
    (originalContent : string) (blockIndex : nat)
    (pm : list (string * nat)) (allLines : list SLine) (index : nat)
    (txt : string) (idents : list (string * string)) :
  (forall l, l ∈ TransformerLines.number_lines originalContent ->
     line_entries pm allLines index (mkSLine (line_content_id l) txt idents) = []) /\
  (forall idm, idm ∈ IndexerLines.number_lines blockIndex originalContent ->
     line_entries pm allLines index (mkSLine (fst idm) txt idents) = []) /\
  (forall idm, idm ∈ IndexerLines.number_lines_sync originalContent ->
     line_entries pm allLines index (mkSLine (fst idm) txt idents) = []).
Proof.
  assert (Hid : forall id, has_B id = false ->
            line_entries pm allLines index (mkSLine id txt idents) = []).
  { intros id Hid. unfold line_entries. simpl.
    rewrite line_match_no_B by exact Hid. by destruct (String.eqb id ""). }
  split; [|split].
  - intros l Hl. apply elem_of_imap_inv in Hl as (i & line & _ & ->).
    apply Hid. simpl. change ("LC" ++ nat_to_string (S i)) with (String "L" (String "C" (nat_to_string (S i)))).
    simpl. apply has_B_digits, all_digits_nat_to_string.
  - intros idm Hl. apply elem_of_imap_inv in Hl as (i & line & _ & ->).
    apply Hid. unfold IndexerLines.code_line, IndexerLines.block_id. simpl.
    rewrite !has_B_app, (has_B_digits (nat_to_string (S blockIndex))),
      (has_B_digits (nat_to_string (S i))) by apply all_digits_nat_to_string.
    reflexivity.
  - intros idm Hl. apply elem_of_imap_inv in Hl as (i & line & _ & ->).
    apply Hid. simpl. change ("LC" ++ nat_to_string (S i)) with (String "L" (String "C" (nat_to_string (S i)))).
    simpl. apply has_B_digits, all_digits_nat_to_string.
Qed.

Lemma B_dash_L_inj (a b a' b' : nat) (suf : string) :
  "B" ++ nat_to_string a ++ "-L" ++ suf ++ nat_to_string b =
  "B" ++ nat_to_string a' ++ "-L" ++ suf ++ nat_to_string b' -> a = a' /\ b = b'.
Proof.
  intros H. change ("B" ++ nat_to_string a ++ "-L" ++ suf ++ nat_to_string b)
    with (String "B" (nat_to_string a ++ String "-" ("L" ++ suf ++ nat_to_string b))) in H.
  change ("B" ++ nat_to_string a' ++ "-L" ++ suf ++ nat_to_string b')
    with (String "B" (nat_to_string a' ++ String "-" ("L" ++ suf ++ nat_to_string b'))) in H.
  injection H as H.
  apply first_nondigit_unique in H as (Ha & _ & Hb);
    [|apply all_digits_nat_to_string | apply all_digits_nat_to_string | reflexivity | reflexivity].
  apply nat_to_string_inj in Ha. split; [exact Ha|].
  change ("L" ++ suf ++ nat_to_string b) with (String "L" (suf ++ nat_to_string b)) in Hb.
  change ("L" ++ suf ++ nat_to_string b') with (String "L" (suf ++ nat_to_string b')) in Hb.
  injection Hb as Hb.
  apply nat_to_string_inj.
  induction suf as [|c suf IH]; [exact Hb|]. rewrite !append_cons in Hb. injection Hb as Hb. exact (IH Hb).
Qed.

(** X3: in [types.ts], the anchor ids [B<k>-L<n>], and the content ids
    [B<k>-LC<n>], of the lines of all blocks are pairwise distinct: two
    lines with the same id lie in the same block and have the same
    number. *)
Theorem types_line_ids_unique
    (k1 k2 : nat) (c1 c2 : string) (l1 l2 : Line) :
  l1 ∈ LineNumbering.number_lines (block_id k1) c1 ->
  l2 ∈ LineNumbering.number_lines (block_id k2) c2 ->
  (line_id l1 = line_id l2 \/ line_content_id l1 = line_content_id l2) ->
  k1 = k2 /\ line_num l1 = line_num l2.
Proof.
  intros H1 H2 Hid.
  apply elem_of_imap_inv in H1 as (i1 & x1 & _ & ->).
  apply elem_of_imap_inv in H2 as (i2 & x2 & _ & ->).
  unfold LineNumbering.number_line, block_id in *. simpl in *.
  rewrite !string_app_assoc in Hid.
  destruct Hid as [Hid|Hid].
  - apply (B_dash_L_inj (S k1) (S i1) (S k2) (S i2) "") in Hid as [Hk Hi]. lia.
  - apply (B_dash_L_inj (S k1) (S i1) (S k2) (S i2) "C") in Hid as [Hk Hi]. lia.
Qed.

Lemma types_line_ids_unique_witness :
  0 = 0 /\ line_num (number_line "B1" 1 "y") = line_num (number_line "B1" 1 "y").
Proof.
  apply (types_line_ids_unique 0 0 "x
y" "x
y").
  - vm_compute. right. left.
  - vm_compute. right. left.
  - left. reflexivity.
Defined.

(** X4: the transformer of the command line gives line [n] of every block
    the same ids [L<n>] and [LC<n>]: two blocks of a page that both have
    an [n]-th line carry duplicate ids. *)
Theorem transformer_line_ids_repeat_across_blocks (c1 c2 : string) (n : nat) :
  0 < n -> n <= List.length (TransformerLines.number_lines c1) ->
  n <= List.length (TransformerLines.number_lines c2) ->
  exists l1 l2, l1 ∈ TransformerLines.number_lines c1 /\ l2 ∈ TransformerLines.number_lines c2 /\
    line_num l1 = n /\ line_num l2 = n /\
    line_id l1 = "L" ++ nat_to_string n /\ line_id l2 = line_id l1 /\
    line_content_id l1 = "LC" ++ nat_to_string n /\ line_content_id l2 = line_content_id l1.
Proof.
  intros Hn H1 H2. unfold TransformerLines.number_lines in *. rewrite length_imap in H1, H2.
  destruct n as [|p]; [lia|].
  destruct (lookup_lt_is_Some_2 (actual_lines (split_on "010" c1)) p) as [x1 Hx1]; [lia|].
  destruct (lookup_lt_is_Some_2 (actual_lines (split_on "010" c2)) p) as [x2 Hx2]; [lia|].
  exists (TransformerLines.number_line p x1), (TransformerLines.number_line p x2).
  split; [|split].
  - apply list_elem_of_lookup_2 with p. rewrite list_lookup_imap, Hx1. reflexivity.
  - apply list_elem_of_lookup_2 with p. rewrite list_lookup_imap, Hx2. reflexivity.
  - repeat split.
Qed.

Lemma transformer_line_ids_repeat_across_blocks_witness :
  exists l1 l2, l1 ∈ TransformerLines.number_lines "a" /\ l2 ∈ TransformerLines.number_lines "b" /\
    line_num l1 = 1 /\ line_num l2 = 1 /\
    line_id l1 = "L" ++ nat_to_string 1 /\ line_id l2 = line_id l1 /\
    line_content_id l1 = "LC" ++ nat_to_string 1 /\ line_content_id l2 = line_content_id l1.
Proof.
  apply transformer_line_ids_repeat_across_blocks; vm_compute; lia.
Defined.

End LineIdFacts.

(** ** More on the block-aware link rewriter ([src/src/types.ts]) *)

Module LinkFacts.
Import JsString HrefPattern LinkRewriter.

Lemma rewrite_link_shape (cur : string) (all : PositionMappings)
    (st : Doc * list Unmapped) (i : nat) (e : El) :
  els (fst st) !! i = Some e ->
  nblocks (fst (rewrite_link cur all st i)) = nblocks (fst st) /\
  List.length (els (fst (rewrite_link cur all st i))) = List.length (els (fst st)) /\
  exists e1, els (fst (rewrite_link cur all st i)) !! i = Some e1 /\
    tag e1 = tag e /\ blk e1 = blk e /\ eid e1 = eid e /\ text e1 = text e /\
    (e1 = e \/ (data_original_href e1 = href e /\ hoverable e1 = true /\
                exists h, href e1 = Some h /\ ends_with_line_ref h)).
Proof.
  destruct st as [d um]. simpl. intros He. unfold rewrite_link. rewrite He.
  repeat case_match; simplify_eq; simpl.
  all: split; [reflexivity|].
  all: try (split; [reflexivity|]; exists e;
            split_and!; first [exact He | reflexivity | left; reflexivity]).
  all: split; [apply length_insert|].
  all: eexists; split; [apply list_lookup_insert_eq; by eapply lookup_lt_Some|].
  all: split_and!; try reflexivity; right; split_and!; try reflexivity.
  all: eexists; split; [reflexivity | first [apply line_ref_same | apply line_ref_cross]].
Qed.

Lemma rewrite_link_sizes (cur : string) (all : PositionMappings) (st : Doc * list Unmapped) (i : nat) :
  nblocks (fst (rewrite_link cur all st i)) = nblocks (fst st) /\
  List.length (els (fst (rewrite_link cur all st i))) = List.length (els (fst st)).
Proof.
  destruct (els (fst st) !! i) as [e|] eqn:He.
  - destruct (rewrite_link_shape cur all st i e He) as (H1 & H2 & _). done.
  - destruct st as [d um]. unfold rewrite_link. simpl in He. rewrite He. done.
Qed.

Lemma fold_rewrite_sizes (cur : string) (all : PositionMappings) (l : list nat) (st : Doc * list Unmapped) :
  nblocks (fst (fold_left (rewrite_link cur all) l st)) = nblocks (fst st) /\
  List.length (els (fst (fold_left (rewrite_link cur all) l st))) = List.length (els (fst st)).
Proof.
  revert st. induction l as [|j l IH]; intros st; simpl; [done|].
  destruct (IH (rewrite_link cur all st j)) as [-> ->]. apply rewrite_link_sizes.
Qed.

Lemma not_link_not_indexed (d : Doc) (i : nat) (e : El) :
  els d !! i = Some e -> is_link e = false -> ~ List.In i (link_indices d).
Proof.
  intros He Hl Hin. unfold link_indices in Hin. apply filter_In in Hin as [_ Hin].
  rewrite He, Hl in Hin. discriminate Hin.
Qed.

(** X7: [transformAgdaLinks] keeps the blocks and the number of
    elements, and changes no element's tag, block, [id] or text; an
    element it changes carries its former href in [data-original-href],
    is marked hoverable and now links to [...-L<n>]. *)
Theorem transform_only_retargets_links (cur : string) (all : PositionMappings) (d : Doc) :
  nblocks (transformAgdaLinks cur all d) = nblocks d /\
  List.length (els (transformAgdaLinks cur all d)) = List.length (els d) /\
  forall i e, els d !! i = Some e ->
  exists e1, els (transformAgdaLinks cur all d) !! i = Some e1 /\
    tag e1 = tag e /\ blk e1 = blk e /\ eid e1 = eid e /\ text e1 = text e /\
    (e1 = e \/ (data_original_href e1 = href e /\ hoverable e1 = true /\
                exists h, href e1 = Some h /\ ends_with_line_ref h)).
Proof.
  destruct (fold_rewrite_sizes cur all (link_indices d) (d, [])) as [Hb Hl].
  split; [exact Hb|]. split; [exact Hl|].
  intros i e He. destruct (is_link e) eqn:Hlink.
  - destruct (transform_link_at cur all d i e He Hlink) as [st [Hst ->]].
    destruct (rewrite_link_shape cur all st i e Hst) as (_ & _ & H). exact H.
  - exists e. unfold transformAgdaLinks, rewrite_links.
    rewrite fold_rewrite_frame by exact (not_link_not_indexed d i e He Hlink).
    split_and!; first [exact He | reflexivity | left; reflexivity].
Qed.

(** X8: when no current file is set ([currentFile] is empty), every
    same-document link [#<digits>] is left as it is, whatever the
    mapping table holds. *)
Theorem same_document_links_kept_without_current_file
    (all : PositionMappings) (d : Doc) (i : nat) (e : El) (h pos : string) :
  els d !! i = Some e -> href e = Some h -> href_match h = Some ("", pos) ->
  els (transformAgdaLinks "" all d) !! i = Some e.
Proof.
  intros He Hh Hm. destruct (is_link e) eqn:Hlink.
  - destruct (transform_link_at "" all d i e He Hlink) as [[d0 um] [Hst ->]].
    simpl in Hst. unfold rewrite_link. rewrite Hst, Hh, Hm.
    destruct (String.eqb h ""); [exact Hst|]. simpl. exact Hst.
  - unfold transformAgdaLinks, rewrite_links.
    rewrite fold_rewrite_frame by exact (not_link_not_indexed d i e He Hlink). exact He.
Qed.

Lemma same_document_links_kept_without_current_file_witness :
  els (transformAgdaLinks "" {[ "M.html" := {[ "100" := 3 ]} ]}
         (mkDoc 1 [mkEl "a" (Some 0) None (Some "#100") "x" None None None None false])) !! 0 =
    Some (mkEl "a" (Some 0) None (Some "#100") "x" None None None None false).
Proof.
  apply (same_document_links_kept_without_current_file _ _ 0 _ "#100" "100");
    reflexivity.
Defined.

End LinkFacts.

(** ** The link rewriter that the command line runs
    ([transformAgdaLinks], [src/src/transformer.ts])

    The same pattern and the same tables as in [types.ts], but no
    blocks: a mapped link goes to [#L<n>] or [<file>#L<n>], and it gets
    a [title].  The document is the list of its elements in document
    order, with the attributes this rewriter reads or writes. *)

Module TransformerLinks.
Import JsString HrefPattern LinkRewriter.

Record TEl := mkTEl {
  t_tag : string;
  t_href : option string;
  t_text : string;                     (* [textContent] *)
  t_original_href : option string;     (* [data-original-href] *)
  t_title : option string
}.

(** [link.textContent || '[No text content]'] *)
Definition t_visible_text (e : TEl) : string :=
  if String.eqb (t_text e) "" then "[No text content]" else t_text e.

(** [`Line ${lineNumber} (position ${position})`] *)
Definition line_title (lineNumber : nat) (position : string) : string :=
  "Line " ++ nat_to_string lineNumber ++ " (position " ++ position ++ ")".

(** The three [setAttribute] calls on a mapped link. *)
Definition retarget (e : TEl) (h newh title : string) : TEl :=
  mkTEl (t_tag e) (Some newh) (t_text e) (Some h) (Some title).

(** The body of [links.forEach((link) => ...)]; the state is the
    elements and [unmappedLinks]. *)
Definition rewrite_link (currentFile : string) (allMappings : PositionMappings)
    (st : list TEl * list Unmapped) (i : nat) : list TEl * list Unmapped :=
  let (es, um) := st in
  match es !! i with
  | None => st
  | Some link =>
    match t_href link with
    | None => st
    | Some h =>
      if String.eqb h "" then st else
      match href_match h with
      | None => st
      | Some (filePart, position) =>
        if String.eqb filePart "" then
          let currentFileMappings :=
            if String.eqb currentFile "" then ∅
            else default ∅ (allMappings !! currentFile) in
          match truthy_line (currentFileMappings !! position) with
          | Some lineNumber =>
              (<[i := retarget link h ("#L" ++ nat_to_string lineNumber)
                       (line_title lineNumber position)]> es, um)
          | None => (es, (um ++ [mkUnmapped h i (t_visible_text link)])%list)
          end
        else
          let targetFile := filePart in
          match truthy_line (allMappings !! targetFile ≫= lookup position) with
          | Some lineNumber =>
              (<[i := retarget link h (targetFile ++ "#L" ++ nat_to_string lineNumber)
                       (line_title lineNumber position)]> es, um)
          | None => (es, (um ++ [mkUnmapped h i (t_visible_text link)])%list)
          end
      end
    end
  end.

Definition t_is_link (e : TEl) : bool :=
  String.eqb (t_tag e) "a" && match t_href e with Some _ => true | None => false end.

(** [document.querySelectorAll('a[href]')] *)
Definition t_link_indices (es : list TEl) : list nat :=
  List.filter (fun i => match es !! i with Some e => t_is_link e | None => false end)
         (seq 0 (List.length es)).

Section Toggle.
(** The source text of the script [addPositionToggleScript] appends to
    the body; the rewriter never looks into it. *)
Variable toggleScript : string.

Definition addPositionToggleScript (es : list TEl) : list TEl :=
  (es ++ [mkTEl "script" None toggleScript None None])%list.

(** [transformAgdaLinks()]: the loop, the warnings (console output,
    not modelled) and the toggle script. *)
Definition transformAgdaLinks (currentFile : string) (allMappings : PositionMappings)
    (es : list TEl) : list TEl :=
  addPositionToggleScript
    (fst (fold_left (rewrite_link currentFile allMappings) (t_link_indices es) (es, []))).

End Toggle.

Lemma t_rewrite_link_frame (cur : string) (all : PositionMappings)
    (st : list TEl * list Unmapped) (i j : nat) :
  i <> j -> fst (rewrite_link cur all st i) !! j = fst st !! j.
Proof.
  intros Hij. destruct st as [es um]. unfold rewrite_link.
  destruct (es !! i) as [link|]; [|done].
  repeat case_match; simpl; try done; by apply list_lookup_insert_ne.
Qed.

Lemma t_fold_rewrite_frame (cur : string) (all : PositionMappings) (i : nat) :
  forall (l : list nat) (st : list TEl * list Unmapped),
  ~ List.In i l ->
  fst (fold_left (rewrite_link cur all) l st) !! i = fst st !! i.
Proof.
  intros l. induction l as [|j l IH]; intros st Hi; simpl; [done|].
  rewrite IH; [|simpl in Hi; tauto].
  apply t_rewrite_link_frame. simpl in Hi. intros ->. tauto.
Qed.

Lemma fold_rewrite_length (cur : string) (all : PositionMappings) :
  forall (l : list nat) (st : list TEl * list Unmapped),
  List.length (fst (fold_left (rewrite_link cur all) l st)) = List.length (fst st).
Proof.
  intros l. induction l as [|j l IH]; intros [es um]; simpl; [done|].
  rewrite IH. unfold rewrite_link.
  destruct (es !! j); [|done]. repeat case_match; simpl; rewrite ?length_insert; done.
Qed.

Lemma t_link_indices_In (es : list TEl) (i : nat) (e : TEl) :
  es !! i = Some e -> t_is_link e = true -> List.In i (t_link_indices es).
Proof.
  intros He Hl. unfold t_link_indices. apply filter_In. split.
  - apply in_seq. apply lookup_lt_Some in He. lia.
  - by rewrite He.
Qed.

Lemma t_not_link_not_indexed (es : list TEl) (i : nat) (e : TEl) :
  es !! i = Some e -> t_is_link e = false -> ~ List.In i (t_link_indices es).
Proof.
  intros He Hl Hin. unfold t_link_indices in Hin. apply filter_In in Hin as [_ Hin].
  rewrite He, Hl in Hin. discriminate Hin.
Qed.

Lemma transform_lookup (toggleScript cur : string) (all : PositionMappings) (es : list TEl) (i : nat) :
  i < List.length es ->
  transformAgdaLinks toggleScript cur all es !! i =
  fst (fold_left (rewrite_link cur all) (t_link_indices es) (es, [])) !! i.
Proof.
  intros Hi. unfold transformAgdaLinks, addPositionToggleScript.
  apply lookup_app_l. rewrite fold_rewrite_length. exact Hi.
Qed.

(** The element of a link, in the final list, is what the step at its
    index made of it, that step seeing the element as it was. *)
Lemma t_transform_link_at (toggleScript cur : string) (all : PositionMappings) (es : list TEl)
    (i : nat) (e : TEl) :
  es !! i = Some e -> t_is_link e = true ->
  exists st, fst st !! i = Some e /\
    transformAgdaLinks toggleScript cur all es !! i = fst (rewrite_link cur all st i) !! i.
Proof.
  intros He Hl.
  rewrite transform_lookup by (by eapply lookup_lt_Some).
  destruct (in_split _ _ (t_link_indices_In es i e He Hl)) as [l1 [l2 Hsplit]].
  assert (Hnd : List.NoDup (t_link_indices es)) by (apply List.NoDup_filter, seq_NoDup).
  rewrite Hsplit in Hnd. apply NoDup_remove_2 in Hnd.
  exists (fold_left (rewrite_link cur all) l1 (es, [])). split.
  - rewrite t_fold_rewrite_frame; [done|]. intros H. apply Hnd, in_or_app. by left.
  - rewrite Hsplit, fold_left_app. simpl.
    apply t_fold_rewrite_frame. intros H. apply Hnd, in_or_app. by right.
Qed.

Lemma lazy_group_digits (pre r : string) : all_digits r = true -> lazy_group pre r = None.
Proof.
  revert pre. induction r as [|c r IH]; intros pre Hr; rewrite lazy_group_unfold; [reflexivity|].
  simpl in Hr. apply andb_prop in Hr as [Hc Hr].
  assert (Hdot : html_tail (String c r) = None).
  { unfold html_tail.
    change (strip_prefix ".html" (String c r)) with
      (if Ascii.eqb "." c then strip_prefix "html" r else None).
    destruct (Ascii.eqb_spec "." c) as [<-|_]; [discriminate Hc|reflexivity]. }
  rewrite Hdot.
  assert (Hlt : is_line_terminator c = false).
  { unfold is_line_terminator.
    destruct (Ascii.eqb_spec c "010") as [->|_]; [discriminate Hc|].
    destruct (Ascii.eqb_spec c "013") as [->|_]; [discriminate Hc|reflexivity]. }
  rewrite Hlt. apply IH, Hr.
Qed.

(** A same-document reference [#a] is parsed into [("", a)]. *)
Lemma href_match_same_file (a : string) :
  nonempty_digits a = true -> href_match ("#" ++ a) = Some ("", a).
Proof.
  intros Ha. change ("#" ++ a) with (String "#" a).
  rewrite href_match_unfold. unfold match_at, group_at. simpl.
  assert (Ha' : all_digits a = true) by (destruct a; [discriminate Ha | exact Ha]).
  rewrite lazy_group_digits by exact Ha'. rewrite Ha. reflexivity.
Qed.

(** A string that ends in [#L] and digits is not matched by the
    numeric-fragment pattern. *)
Lemma hash_L_no_match (y e : string) : all_digits e = true -> href_match (y ++ "#L" ++ e) = None.
Proof.
  intros He.
  destruct (href_match (y ++ "#L" ++ e)) as [[f d]|] eqn:E; [|reflexivity].
  apply href_match_sound in E as [p [E Hd]].
  assert (Hd' : all_digits d = true) by (destruct d; [discriminate Hd | exact Hd]).
  change ("#" ++ d) with (String "#" d) in E.
  change ("#L" ++ e) with (String "#" (String "L" e)) in E.
  assert (E' : (y ++ "#") ++ String "L" e = p ++ String "#" d)
    by (rewrite string_app_assoc; exact E).
  apply StringFacts.last_nondigit_unique in E' as (_ & Hc & _);
    [discriminate Hc | exact He | exact Hd' | reflexivity | reflexivity].
Qed.

Lemma t_rewrite_link_at (cur : string) (all : PositionMappings)
    (st : list TEl * list Unmapped) (i : nat) (e : TEl) :
  fst st !! i = Some e ->
  fst (rewrite_link cur all st i) !! i = Some e \/
  exists h y n title, t_href e = Some h /\
    fst (rewrite_link cur all st i) !! i = Some (retarget e h (y ++ "#L" ++ nat_to_string n) title).
Proof.
  destruct st as [es um]. simpl. intros He. unfold rewrite_link. rewrite He.
  repeat case_match; simpl; try (left; exact He).
  all: right; rewrite list_lookup_insert_eq by (by eapply lookup_lt_Some).
  - exists s, "", n, (line_title n s1). split; reflexivity.
  - exists s, "", n, (line_title n s1). split; reflexivity.
  - exists s, s0, n, (line_title n s1). split; reflexivity.
Qed.

Lemma t_rewrite_link_nomatch (cur : string) (all : PositionMappings)
    (es : list TEl) (um : list Unmapped) (i : nat) (e : TEl) :
  es !! i = Some e -> (forall h, t_href e = Some h -> href_match h = None) ->
  rewrite_link cur all (es, um) i = (es, um).
Proof.
  intros He Hm. unfold rewrite_link. rewrite He.
  destruct (t_href e) as [h|] eqn:Eh; [|done].
  rewrite (Hm h eq_refl). by destruct (String.eqb h "").
Qed.

End TransformerLinks.

Module TransformerLinkFacts.
Import JsString HrefPattern LinkRewriter TransformerLinks.

(** X9: in the transformer the command line runs, a same-document link
    [#a] whose anchor is mapped to a line [L] of the current file is
    rewritten to [#L<L>], keeps [#a] in [data-original-href] and gets
    the title [Line <L> (position <a>)]; its tag and text stay. *)
Theorem transformer_same_document_link_to_line
    (toggleScript cur a : string) (L : nat) (m : gmap string nat) (all : PositionMappings)
    (es : list TEl) (i : nat) (link : TEl) :
  cur <> "" -> all !! cur = Some m -> m !! a = Some L -> 0 < L ->
  nonempty_digits a = true ->
  es !! i = Some link -> t_tag link = "a" -> t_href link = Some ("#" ++ a) ->
  transformAgdaLinks toggleScript cur all es !! i =
    Some (mkTEl "a" (Some ("#L" ++ nat_to_string L)) (t_text link) (Some ("#" ++ a))
                (Some (line_title L a))).
Proof.
  intros Hcur Hm Ha HL Hd Hi Htag Hh.
  assert (Hl : t_is_link link = true) by (unfold t_is_link; by rewrite Htag, Hh).
  destruct (t_transform_link_at toggleScript cur all es i link Hi Hl) as [[es0 um] [H0 ->]].
  simpl in H0. unfold rewrite_link. rewrite H0, Hh.
  change (String.eqb ("#" ++ a) "") with false.
  rewrite href_match_same_file by exact Hd. simpl.
  destruct (String.eqb_spec cur "") as [Hc|_]; [contradiction|].
  rewrite Hm. simpl. rewrite Ha. destruct L as [|n]; [lia|]. simpl.
  rewrite list_lookup_insert_eq by (by eapply lookup_lt_Some).
  unfold retarget. rewrite Htag. reflexivity.
Qed.

Lemma transformer_same_document_link_to_line_witness :
  transformAgdaLinks "" "M.html" {[ "M.html" := {[ "100" := 3 ]} ]}
      [mkTEl "a" (Some ("#" ++ "100")) "x" None None] !! 0 =
    Some (mkTEl "a" (Some ("#L" ++ nat_to_string 3)) (t_text (mkTEl "a" (Some ("#" ++ "100")) "x" None None))
                (Some ("#" ++ "100")) (Some (line_title 3 "100"))).
Proof.
  apply (transformer_same_document_link_to_line "" "M.html" "100" 3 {[ "100" := 3 ]});
    try reflexivity; try discriminate; lia.
Defined.

(** X10: in the transformer the command line runs, a link [T#a] to
    another [.html] file whose anchor is mapped to line [L] of [T] is
    rewritten to [T#L<L>], the bare line id, which every block of [T]
    with an [L]-th line carries; [T#a] goes to [data-original-href]. *)
Theorem transformer_cross_document_link_to_line
    (toggleScript C T p a : string) (L : nat) (m : gmap string nat) (all : PositionMappings)
    (es : list TEl) (i : nat) (link : TEl) :
  T = p ++ ".html" -> p <> "" -> no_line_terminators T = true ->
  nonempty_digits a = true ->
  all !! T = Some m -> m !! a = Some L -> 0 < L ->
  es !! i = Some link -> t_tag link = "a" -> t_href link = Some (T ++ "#" ++ a) ->
  transformAgdaLinks toggleScript C all es !! i =
    Some (mkTEl "a" (Some (T ++ "#L" ++ nat_to_string L)) (t_text link) (Some (T ++ "#" ++ a))
                (Some (line_title L a))).
Proof.
  intros HT Hp Hnl Ha HmT Hma HL Hi Htag Hh. subst T.
  assert (Hl : t_is_link link = true) by (unfold t_is_link; by rewrite Htag, Hh).
  destruct (t_transform_link_at toggleScript C all es i link Hi Hl) as [[es0 um] [H0 ->]].
  simpl in H0. unfold rewrite_link. rewrite H0, Hh.
  assert (Hne : String.eqb ((p ++ ".html") ++ "#" ++ a) "" = false).
  { destruct p; [done|]. by rewrite append_cons. }
  rewrite Hne, href_match_cross_file by done.
  assert (HneT : String.eqb (p ++ ".html") "" = false).
  { destruct p; [done|]. by rewrite append_cons. }
  rewrite HneT, HmT. simpl. rewrite Hma.
  destruct L as [|n]; [lia|]. simpl.
  rewrite list_lookup_insert_eq by (by eapply lookup_lt_Some).
  unfold retarget. rewrite Htag. reflexivity.
Qed.

Lemma transformer_cross_document_link_to_line_witness :
  transformAgdaLinks "" "M.html" {[ "A.html" := {[ "42" := 5 ]} ]}
      [mkTEl "a" (Some ("A.html" ++ "#" ++ "42")) "y" None None] !! 0 =
    Some (mkTEl "a" (Some ("A.html" ++ "#L" ++ nat_to_string 5))
                (t_text (mkTEl "a" (Some ("A.html" ++ "#" ++ "42")) "y" None None))
                (Some ("A.html" ++ "#" ++ "42")) (Some (line_title 5 "42"))).
Proof.
  apply (transformer_cross_document_link_to_line "" "M.html" "A.html" "A" "42" 5 {[ "42" := 5 ]});
    try reflexivity; try discriminate; lia.
Defined.

(** X11: an element whose href the transformer changed is left exactly
    as it is by a second run, with any current file and any table: its
    new href [...#L<n>] no longer matches the numeric-fragment
    pattern. *)
Theorem transformer_rewritten_links_stable
    (ts ts' cur cur' : string) (all all' : PositionMappings) (es : list TEl) (i : nat) (e e1 : TEl) :
  es !! i = Some e ->
  transformAgdaLinks ts cur all es !! i = Some e1 ->
  t_href e1 <> t_href e ->
  transformAgdaLinks ts' cur' all' (transformAgdaLinks ts cur all es) !! i = Some e1.
Proof.
  intros He He1 Hne.
  destruct (t_is_link e) eqn:Hl.
  2:{ exfalso. rewrite transform_lookup in He1 by (by eapply lookup_lt_Some).
      rewrite t_fold_rewrite_frame in He1 by exact (t_not_link_not_indexed es i e He Hl).
      simpl in He1. rewrite He in He1. injection He1 as ->. by apply Hne. }
  destruct (t_transform_link_at ts cur all es i e He Hl) as [st [Hst Heq]].
  rewrite Heq in He1.
  destruct (t_rewrite_link_at cur all st i e Hst) as [Hsame|(h & y & n & title & Hh & Hr)].
  { rewrite Hsame in He1. injection He1 as ->. by destruct Hne. }
  rewrite Hr in He1. injection He1 as <-.
  set (es1 := transformAgdaLinks ts cur all es).
  assert (Hes1 : es1 !! i = Some (retarget e h (y ++ "#L" ++ nat_to_string n) title))
    by (unfold es1; rewrite Heq; exact Hr).
  assert (Hnm : forall h', t_href (retarget e h (y ++ "#L" ++ nat_to_string n) title) = Some h' ->
                  href_match h' = None).
  { intros h' Hh'. simpl in Hh'. injection Hh' as <-. apply hash_L_no_match, all_digits_nat_to_string. }
  destruct (t_is_link (retarget e h (y ++ "#L" ++ nat_to_string n) title)) eqn:Hl1.
  - destruct (t_transform_link_at ts' cur' all' es1 i _ Hes1 Hl1) as [[es2 um2] [Hst2 ->]].
    simpl in Hst2. rewrite (t_rewrite_link_nomatch cur' all' es2 um2 i _ Hst2 Hnm). exact Hst2.
  - rewrite transform_lookup by (by eapply lookup_lt_Some).
    rewrite t_fold_rewrite_frame by exact (t_not_link_not_indexed es1 i _ Hes1 Hl1). exact Hes1.
Qed.

Lemma transformer_rewritten_links_stable_witness :
  transformAgdaLinks "" "M.html" ∅
    (transformAgdaLinks "" "M.html" {[ "M.html" := {[ "100" := 3 ]} ]}
       [mkTEl "a" (Some "#100") "x" None None]) !! 0 =
  Some (mkTEl "a" (Some "#L3") "x" (Some "#100") (Some "Line 3 (position 100)")).
Proof.
  apply (transformer_rewritten_links_stable "" "" "M.html" "M.html" {[ "M.html" := {[ "100" := 3 ]} ]} ∅
           [mkTEl "a" (Some "#100") "x" None None] 0 (mkTEl "a" (Some "#100") "x" None None)).
  - reflexivity.
  - vm_compute. reflexivity.
  - discriminate.
Defined.

End TransformerLinkFacts.

(** ** More on the position-mapping indexer *)

Module IndexerFacts.
Import JsString PositionIndexer.

Definition scans (scan : string -> option (gmap string nat)) (f : string) : bool :=
  match scan f with Some _ => true | None => false end.

(** X12: the table the batched [buildPositionMappings] builds has an entry
    exactly for the [.html] files of the listing whose scan succeeds;
    when the directory cannot be listed, the table is empty and only
    the outer error is logged. *)
Theorem indexer_table_domain
    (scan : string -> option (gmap string nat)) (progress_ok : nat -> nat -> bool)
    (l : list string) (k : string) :
  (is_Some (globalPositionMappings (buildPositionMappings scan progress_ok (Some l)) !! k) <->
   k ∈ html_files l /\ is_Some (scan k)) /\
  globalPositionMappings (buildPositionMappings scan progress_ok None) = ∅ /\
  errors (buildPositionMappings scan progress_ok None) = [IndexError].
Proof.
  split; [|split; reflexivity].
  rewrite buildPositionMappings_flat, fold_process_lookup. simpl.
  destruct (bool_decide_reflect (k ∈ html_files l)) as [Hin|Hnin].
  - destruct (scan k) as [m|]; simpl.
    + split; [intros _; split; [exact Hin | eauto] | intros _; eauto].
    + rewrite lookup_empty. split; [intros H; by destruct H | intros [_ H]; by destruct H].
  - rewrite lookup_empty. split; [intros H; by destruct H | intros [H _]; contradiction].
Qed.

Lemma fold_process_count (scan : string -> option (gmap string nat)) (progress_ok : nat -> nat -> bool)
    (total : nat) (files : list string) (st : St) :
  processedCount (fold_left (process_file scan progress_ok total) files st) =
  processedCount st + List.length (List.filter (scans scan) files).
Proof.
  revert st. induction files as [|f fs IH]; intros st; simpl; [lia|].
  rewrite IH. unfold process_file, scans.
  destruct (scan f); [destruct (progress_ok _ _)|]; simpl; lia.
Qed.

(** X13: after the batched [buildPositionMappings], [processedCount] is
    the number of [.html] files of the listing whose scan succeeds,
    also when the progress callback throws. *)
Theorem indexer_processed_count
    (scan : string -> option (gmap string nat)) (progress_ok : nat -> nat -> bool) (l : list string) :
  processedCount (buildPositionMappings scan progress_ok (Some l)) =
  List.length (List.filter (scans scan) (html_files l)).
Proof. rewrite buildPositionMappings_flat, fold_process_count. reflexivity. Qed.

End IndexerFacts.

(** ** More on search-entry extraction *)

Module SearchFacts.
Import JsString PositionIndexer Search.

Definition parses (read_parse : string -> option SDoc) (f : string) : bool :=
  match read_parse f with Some _ => true | None => false end.

Lemma obj_set_keys_new {A} (k : string) (v : A) (o : list (string * A)) :
  k ∉ map fst o -> map fst (obj_set k v o) = (map fst o ++ [k])%list.
Proof.
  induction o as [|[k' v'] o IH]; intros Hk; simpl; [reflexivity|].
  destruct (String.eqb_spec k k') as [->|Hne]; [set_solver|].
  simpl. rewrite IH by set_solver. reflexivity.
Qed.

Lemma extract_empty_iff (read_parse : string -> option SDoc) (file : string) (pm : list (string * nat)) :
  extractSearchEntriesFromFile read_parse file pm = [] <-> read_parse file = None.
Proof.
  unfold extractSearchEntriesFromFile. destruct (read_parse file); [|done].
  unfold extract_entries. done.
Qed.

Lemma fold_index_keys (read_parse : string -> option SDoc) (mappings_of : string -> list (string * nat))
    (files : list string) (index : SearchIndex) :
  List.NoDup files -> (forall f, f ∈ files -> f ∉ map fst index) ->
  map fst (fold_left (index_file read_parse mappings_of) files index) =
  (map fst index ++ List.filter (parses read_parse) files)%list.
Proof.
  revert index. induction files as [|f fs IH]; intros index Hnd Hfresh; simpl.
  - by rewrite app_nil_r.
  - inversion Hnd as [|? ? Hf Hnd']; subst.
    assert (Hkeys : map fst (index_file read_parse mappings_of index f) =
                    (map fst index ++ if parses read_parse f then [f] else [])%list).
    { unfold index_file, parses.
      destruct (extractSearchEntriesFromFile read_parse f (mappings_of f)) as [|e es] eqn:Ex.
      - apply extract_empty_iff in Ex. rewrite Ex. by rewrite app_nil_r.
      - destruct (read_parse f) eqn:Hr.
        + apply obj_set_keys_new, Hfresh. set_solver.
        + apply (proj2 (extract_empty_iff read_parse f (mappings_of f))) in Hr. congruence. }
    rewrite IH.
    + rewrite Hkeys, <- app_assoc. by destruct (parses read_parse f).
    + exact Hnd'.
    + intros g Hg. rewrite Hkeys. intros Hin. apply elem_of_app in Hin as [Hin|Hin].
      * apply (Hfresh g); [set_solver | exact Hin].
      * destruct (parses read_parse f); [|set_solver].
        apply list_elem_of_singleton in Hin as ->. apply Hf. by apply list_elem_of_In.
Qed.

(** X14: with the directory's file names distinct, the keys of the search
    index are the [.html] files of the listing that were read and
    parsed without error, in the order of the listing. *)
Theorem search_index_keys
    (read_parse : string -> option SDoc) (mappings_of : string -> list (string * nat))
    (l : list string) :
  List.NoDup (html_files l) ->
  map fst (buildSearchIndex read_parse mappings_of (Some l)) =
  List.filter (parses read_parse) (html_files l).
Proof.
  intros Hnd. unfold buildSearchIndex. rewrite fold_index_batches, batches_concat by lia.
  rewrite fold_index_keys; [reflexivity | exact Hnd | set_solver].
Qed.

Lemma search_index_keys_witness :
  map fst (buildSearchIndex (fun f => if String.eqb f "B.html" then None else Some (mkSDoc [] []))
             (fun _ => []) (Some ["A.html"; "B.html"; "notes.txt"; "C.html"])) =
  List.filter (parses (fun f => if String.eqb f "B.html" then None else Some (mkSDoc [] [])))
    (html_files ["A.html"; "B.html"; "notes.txt"; "C.html"]).
Proof.
  apply search_index_keys. vm_compute.
  repeat constructor; set_solver.
Defined.

Lemma line_entries_shape (pm : list (string * nat)) (allLines : list SLine)
    (index : nat) (line : SLine) (e : SearchEntry) :
  e ∈ line_entries pm allLines index line ->
  entry_type e = TCode /\ content e <> "" /\
  exists n, lineNumber e = Some n /\
    (position e = None \/ exists p, position e = Some p /\ find_position pm n = Some p).
Proof.
  unfold line_entries.
  destruct (String.eqb (sl_id line) ""); [set_solver|].
  destruct (line_match (sl_id line)) as [d|]; [|set_solver].
  destruct (String.eqb_spec (trim (sl_text line)) "") as [_|Hne]; [set_solver|].
  intros He. apply elem_of_cons in He as [->|He].
  { split; [reflexivity|]. split; [exact Hne|]. eexists. split; [reflexivity | by left]. }
  apply elem_of_concat_map in He as ([id txt] & _ & He).
  simpl in He.
  destruct (String.eqb id "" || nonempty_digits id); [set_solver|].
  destruct (String.eqb_spec (trim txt) "") as [_|Hc]; [set_solver|].
  apply list_elem_of_singleton in He as ->. simpl.
  split; [reflexivity|]. split; [exact Hc|]. eexists. split; [reflexivity|].
  destruct (find_position pm _) as [p|]; [right; eauto | by left].
Qed.

(** X15: the entries of a document start with its [module] entry and hold
    no other; every other entry is a code entry with a non-empty
    content, a line number and a context, or a header entry with a
    non-empty content, no line number and no position, whose context
    is its content. *)
Theorem extracted_entry_kinds (moduleName : string) (pm : list (string * nat)) (d : SDoc) :
  exists rest, extract_entries moduleName pm d = mkEntry TModule moduleName None None None :: rest /\
  forall e, e ∈ rest ->
    (entry_type e = TCode /\ content e <> "" /\ is_Some (lineNumber e) /\ is_Some (context e)) \/
    (entry_type e = THeader /\ content e <> "" /\ lineNumber e = None /\ position e = None /\
     context e = Some (content e)).
Proof.
  eexists. split; [reflexivity|]. intros e He.
  apply elem_of_app in He as [He|He].
  - left. apply elem_of_concat_map in He as (allLines & _ & He).
    unfold block_entries in He. apply elem_of_concat_imap in He as (index & line & _ & He).
    destruct (line_entries_shape pm allLines index line e He) as (Ht & Hc & n & Hn & _).
    destruct (line_entries_context pm allLines index line e He) as (_ & _ & Hx).
    split_and!; [exact Ht | exact Hc | by eexists | by eexists].
  - right. apply elem_of_concat_map in He as (h & _ & He).
    unfold header_entry in He. destruct (String.eqb_spec (trim h) "") as [_|Hne]; [set_solver|].
    apply list_elem_of_singleton in He as ->. simpl. split_and!; done.
Qed.

Lemma find_position_spec (pm : list (string * nat)) (n : nat) (p : string) :
  find_position pm n = Some p ->
  exists pre post, pm = (pre ++ (p, n) :: post)%list /\ Forall (fun kv => snd kv <> n) pre.
Proof.
  unfold find_position. induction pm as [|[k v] pm IH]; simpl; [discriminate|].
  destruct (Nat.eqb_spec v n) as [->|Hne].
  - intros [= <-]. exists [], pm. split; [reflexivity | constructor].
  - intros H. destruct (IH H) as (pre & post & -> & Hf).
    exists ((k, v) :: pre), post. split; [reflexivity|]. constructor; [exact Hne | exact Hf].
Qed.

(** X16: an entry of a document that carries a position carries a line
    number [n], and its position is the first key, in the key order of
    the file's mappings, that is mapped to line [n] (not the entry's
    own anchor, which, being numeric, is skipped). *)
Theorem entry_position_first_anchor_of_line
    (moduleName : string) (pm : list (string * nat)) (d : SDoc) (e : SearchEntry) (p : string) :
  e ∈ extract_entries moduleName pm d -> position e = Some p ->
  exists n pre post, lineNumber e = Some n /\ pm = (pre ++ (p, n) :: post)%list /\
    Forall (fun kv => snd kv <> n) pre.
Proof.
  intros He Hp. unfold extract_entries in He.
  apply elem_of_cons in He as [->|He]; [discriminate Hp|].
  apply elem_of_app in He as [He|He].
  - apply elem_of_concat_map in He as (allLines & _ & He).
    unfold block_entries in He. apply elem_of_concat_imap in He as (index & line & _ & He).
    destruct (line_entries_shape pm allLines index line e He) as (_ & _ & n & Hn & [Hnone|(p' & Hp' & Hf)]).
    + congruence.
    + rewrite Hp in Hp'. injection Hp' as <-.
      destruct (find_position_spec pm n p Hf) as (pre & post & Hpm & Hpre).
      exists n, pre, post. auto.
  - apply elem_of_concat_map in He as (h & _ & He).
    unfold header_entry in He. destruct (String.eqb (trim h) ""); [set_solver|].
    apply list_elem_of_singleton in He as ->. discriminate Hp.
Qed.

Lemma entry_position_first_anchor_of_line_witness :
  exists n pre post, lineNumber (mkEntry TCode "f" (Some 1) (Some "5") (Some "f x")) = Some n /\
    [("5", 1); ("9", 1)] = (pre ++ ("5", n) :: post)%list /\
    Forall (fun kv => snd kv <> n) pre.
Proof.
  apply (entry_position_first_anchor_of_line "M" [("5", 1); ("9", 1)]
           (mkSDoc [[mkSLine "B1-LC1" "f x" [("9", "f"); ("f-def", "f")]]] [])).
  - vm_compute. right. right. left.
  - reflexivity.
Defined.

End SearchFacts.

(** ** More on chunking the search index *)

Module ChunkFacts.
Import JsString Search Chunking.

Definition entries_n (n : nat) : list SearchEntry := repeat (mkEntry TCode "x" None None None) n.

Lemma totalEntries_acc (index : SearchIndex) (n : nat) :
  fold_left (fun sum kv => sum + List.length (snd kv)) index n = n + totalEntries index.
Proof.
  unfold totalEntries. revert n. induction index as [|[f es] index IH]; intros n; simpl; [lia|].
  rewrite (IH (n + List.length es)), (IH (List.length es)). lia.
Qed.

Lemma totalEntries_snoc (index : SearchIndex) (f : string) (es : list SearchEntry) :
  totalEntries (index ++ [(f, es)]) = totalEntries index + List.length es.
Proof. unfold totalEntries at 1. rewrite fold_left_app. simpl. rewrite totalEntries_acc. lia. Qed.

(** The inner loop keeps [entriesCount] equal to the entries taken, keeps
    a chunk of two or more files within the cap, and stops before a
    file only when the chunk is full or that file would overflow it. *)
Lemma take_chunk_invariant (files : SearchIndex) (n : nat) (acc acc' rest : SearchIndex) :
  take_chunk files n acc = (acc', rest) -> n = totalEntries acc ->
  (2 <= List.length acc -> totalEntries acc <= maxEntriesPerChunk) ->
  (2 <= List.length acc' -> totalEntries acc' <= maxEntriesPerChunk) /\
  match rest with
  | [] => True
  | (f, es) :: _ => maxEntriesPerChunk <= totalEntries acc' \/
                    (acc' <> [] /\ maxEntriesPerChunk < totalEntries acc' + List.length es)
  end.
Proof.
  revert n acc. induction files as [|[f es] files IH]; intros n acc Ht Hn Hcap; simpl in Ht.
  - injection Ht as <- <-. split; [exact Hcap | exact I].
  - destruct (Nat.ltb_spec n maxEntriesPerChunk) as [Hlt|Hge].
    + destruct ((maxEntriesPerChunk <? n + List.length es)%nat && (0 <? List.length acc)%nat) eqn:Hb.
      * injection Ht as <- <-. split; [exact Hcap|].
        apply andb_prop in Hb as [Hb1 Hb2]. apply Nat.ltb_lt in Hb1, Hb2.
        right. split; [destruct acc; simpl in Hb2; [lia | discriminate] | lia].
      * apply (IH _ _ Ht).
        -- rewrite totalEntries_snoc. lia.
        -- rewrite length_app, totalEntries_snoc. simpl. intros H2.
           apply andb_false_iff in Hb as [Hb|Hb]; apply Nat.ltb_ge in Hb; [lia|].
           destruct acc; simpl in *; lia.
    + injection Ht as <- <-. split; [exact Hcap|]. left. lia.
Qed.

(** X17: every chunk holds at least one file, and a chunk of two or more
    files holds at most [maxEntriesPerChunk] (1000) entries; only a
    chunk of one file can exceed the cap. *)
Theorem chunk_cap (index g : SearchIndex) :
  g ∈ chunks_of index ->
  g <> [] /\ (2 <= List.length g -> totalEntries g <= maxEntriesPerChunk).
Proof.
  intros Hg. destruct (chunk_groups_taken _ _ _ Hg) as (Hne & files' & rest & Ht).
  split; [exact Hne|].
  apply (take_chunk_invariant _ _ _ _ _ Ht); [reflexivity | simpl; lia].
Qed.

Lemma chunk_cap_witness :
  [("A.html", entries_n 600); ("B.html", entries_n 400)] <> [] /\
  (2 <= List.length [("A.html", entries_n 600); ("B.html", entries_n 400)] ->
   totalEntries [("A.html", entries_n 600); ("B.html", entries_n 400)]
     <= maxEntriesPerChunk).
Proof.
  apply (chunk_cap [("A.html", entries_n 600); ("B.html", entries_n 400);
                    ("C.html", entries_n 1)]).
  vm_compute. left.
Defined.

Lemma chunk_groups_consecutive (fuel : nat) (files : SearchIndex) (i : nat) (g g' : SearchIndex) :
  chunk_groups fuel files !! i = Some g -> chunk_groups fuel files !! S i = Some g' ->
  exists f es r, g' = (f, es) :: r /\
    (maxEntriesPerChunk <= totalEntries g \/ maxEntriesPerChunk < totalEntries g + List.length es).
Proof.
  revert files i. induction fuel as [|fuel IH]; intros files i Hg Hg'; [discriminate Hg|].
  destruct files as [|x files]; [discriminate Hg|].
  rewrite chunk_groups_cons in Hg, Hg'.
  destruct (take_chunk (x :: files) 0 []) as [chunk rest] eqn:Ht.
  destruct i as [|i].
  - simpl in Hg, Hg'. injection Hg as <-.
    destruct (take_chunk_invariant _ _ _ _ _ Ht eq_refl) as [_ Hstop]; [simpl; lia|].
    destruct fuel as [|fuel']; [discriminate Hg'|].
    destruct rest as [|[f es] rest]; [discriminate Hg'|].
    rewrite chunk_groups_cons in Hg'.
    destruct (take_chunk ((f, es) :: rest) 0 []) as [chunk' rest'] eqn:Ht'.
    simpl in Hg'. injection Hg' as <-.
    destruct (take_chunk_first _ _ _ _ _ Ht') as (c & -> & _).
    exists f, es, c. split; [reflexivity|].
    destruct Hstop as [H|[_ H]]; [left | right]; exact H.
  - simpl in Hg, Hg'. exact (IH rest i Hg Hg').
Qed.

(** X18: the chunks are filled greedily: a chunk is closed before the next
    file only when it already holds [maxEntriesPerChunk] entries or
    more, or when adding that file's entries would exceed the cap. *)
Theorem chunks_filled_greedily (index : SearchIndex) (i : nat) (g g' : SearchIndex) :
  chunks_of index !! i = Some g -> chunks_of index !! S i = Some g' ->
  exists f es r, g' = (f, es) :: r /\
    (maxEntriesPerChunk <= totalEntries g \/ maxEntriesPerChunk < totalEntries g + List.length es).
Proof. apply chunk_groups_consecutive. Qed.

Lemma chunks_filled_greedily_witness :
  exists f es r, [("B.html", entries_n 500)] = (f, es) :: r /\
    (maxEntriesPerChunk <= totalEntries [("A.html", entries_n 600)] \/
     maxEntriesPerChunk < totalEntries [("A.html", entries_n 600)] + List.length es).
Proof.
  apply (chunks_filled_greedily [("A.html", entries_n 600); ("B.html", entries_n 500)] 0);
    vm_compute; reflexivity.
Defined.

(** A document of 1500 entries followed by one of 10, with a
    serialization that fails above 1500 entries. *)
Definition round_trip_index : SearchIndex :=
  [("Big.html", entries_n 1500); ("Small.html", entries_n 10)].

Definition fits_le_1500 (x : SearchIndex) : bool := (totalEntries x <=? 1500)%nat.

Definition round_trip_writes : list (string * Written) :=
  [(metadataPath, Manifest ["chunk-0"; "chunk-1"] 2 1510);
   (chunkPath "chunk-0", ChunkFile [("Big.html", entries_n 1500)]);
   (chunkPath "chunk-1", ChunkFile [("Small.html", entries_n 10)])].

(** X26: when the whole index does not serialize and the chunked write
    succeeds, the writes are the manifest, first, listing the chunk
    names [chunk-0], [chunk-1], ..., then exactly one chunk file per
    name, in order; the chunks concatenate, in key order, to the index;
    every chunk serialized and was written directly; and a file with
    more than 1000 entries is a chunk by itself, its list whole. *)
Theorem chunked_index_written_whole
    (fits : SearchIndex -> bool) (depth : nat) (index : SearchIndex)
    (ws : list (string * Written)) :
  fits index = false ->
  writeSearchIndex fits depth index = Some ws ->
  ws = ((metadataPath, Manifest (chunk_names "chunk" (chunks_of index))
                                 (List.length index) (totalEntries index)) ::
        map (fun '(name, c) => (chunkPath name, ChunkFile c))
            (combine (chunk_names "chunk" (chunks_of index)) (chunks_of index))) /\
  map fst (tail ws) = map chunkPath (chunk_names "chunk" (chunks_of index)) /\
  List.concat (chunks_of index) = index /\
  (forall c, c ∈ chunks_of index -> fits c = true) /\
  (forall c f es, c ∈ chunks_of index -> (f, es) ∈ c ->
     (maxEntriesPerChunk < List.length es)%nat -> c = [(f, es)]).
Proof.
  intros Hfits Hw. unfold writeSearchIndex in Hw. rewrite Hfits in Hw.
  destruct depth as [|depth]; [discriminate Hw|].
  simpl in Hw.
  set (names := chunk_names "chunk" (chunks_of index)) in *.
  assert (Hrec : forall name c, (name, c) ∈ combine names (chunks_of index) ->
            fits c = false -> writeChunkedSearchIndex fits depth c name = None).
  { intros name c Hin Hc. apply combine_elem_r in Hin.
    destruct (chunk_groups_taken _ _ _ Hin) as (Hne & files' & rest & Ht).
    apply rechunk_fails; [exact (rechunk_single _ _ _ Hne Ht) | exact Hc]. }
  destruct (fold_write_chunk_some fits _ _ _ _ Hrec Hw) as [Hall Hws].
  assert (Hshape : ws = ((metadataPath, Manifest names (List.length index) (totalEntries index)) ::
        map (fun '(name, c) => (chunkPath name, ChunkFile c)) (combine names (chunks_of index)))).
  { rewrite Hws. reflexivity. }
  assert (Hlen : List.length names = List.length (chunks_of index)) by apply length_chunk_names.
  clearbody names.
  split; [exact Hshape|]. split; [|split; [|split]].
  - rewrite Hshape. simpl. rewrite map_map.
    clear -Hlen. revert Hlen. generalize (chunks_of index) as cs.
    induction names as [|n ns IH]; intros [|c cs] Hlen; simpl in *; try lia; [reflexivity|].
    f_equal. apply IH. lia.
  - apply chunk_groups_concat. lia.
  - intros c Hc.
    clear -Hc Hall Hlen. revert Hc Hall Hlen. generalize (chunks_of index) as cs.
    induction names as [|n ns IH]; intros [|c' cs] Hc Hall Hlen; simpl in *; try lia; [set_solver|].
    apply elem_of_cons in Hc as [->|Hc].
    + apply (Hall n). set_solver.
    + apply (IH cs Hc); [|lia]. intros name c2 Hin. apply (Hall name). set_solver.
  - intros c f es Hc Hin Hbig. exact (chunk_big_alone _ _ _ _ Hc Hin Hbig).
Qed.

Lemma chunked_index_written_whole_witness :
  round_trip_writes = ((metadataPath, Manifest (chunk_names "chunk" (chunks_of round_trip_index))
                                 (List.length round_trip_index) (totalEntries round_trip_index)) ::
        map (fun '(name, c) => (chunkPath name, ChunkFile c))
            (combine (chunk_names "chunk" (chunks_of round_trip_index)) (chunks_of round_trip_index))) /\
  map fst (tail round_trip_writes) = map chunkPath (chunk_names "chunk" (chunks_of round_trip_index)) /\
  List.concat (chunks_of round_trip_index) = round_trip_index /\
  (forall c, c ∈ chunks_of round_trip_index -> fits_le_1500 c = true) /\
  (forall c f es, c ∈ chunks_of round_trip_index -> (f, es) ∈ c ->
     (maxEntriesPerChunk < List.length es)%nat -> c = [(f, es)]).
Proof.
  apply (chunked_index_written_whole fits_le_1500 1 round_trip_index round_trip_writes).
  - vm_compute. reflexivity.
  - vm_compute. reflexivity.
Defined.

End ChunkFacts.

(** ** More on handing the mapping table over *)

Module SharedMappingsFacts.
Import SharedMappings.

(** The table at 1 holds the sub-map of [M.html] at 2. *)
Definition table_ex : State :=
  mkState {[ 1%positive := {[ "M.html" := VRef 2 ]};
             2%positive := {[ "100" := VNum 5 ]} ]} 1.

(** X19: [getGlobalMappings] returns a table through which every read
    gives what the indexer's table gives, and the call changes no read
    through the indexer's table; after [setGlobalMappings(T)], reading
    through the indexer's table gives what reading through [T] gave.
    The tables and the sub-maps read must be allocated. *)
Theorem handover_reads_agree (s : State) (mappings : positive) (doc a : string) :
  globalPositionMappings s ∈ dom (heap s) -> mappings ∈ dom (heap s) ->
  (forall l', sub_map (heap s) (globalPositionMappings s) doc = Some l' -> l' ∈ dom (heap s)) ->
  (forall l', sub_map (heap s) mappings doc = Some l' -> l' ∈ dom (heap s)) ->
  read (heap (fst (getGlobalMappings s))) (snd (getGlobalMappings s)) doc a =
    read (heap s) (globalPositionMappings s) doc a /\
  read (heap (fst (getGlobalMappings s))) (globalPositionMappings (fst (getGlobalMappings s))) doc a =
    read (heap s) (globalPositionMappings s) doc a /\
  read (heap (setGlobalMappings s mappings)) (globalPositionMappings (setGlobalMappings s mappings)) doc a =
    read (heap s) mappings doc a.
Proof.
  intros Hg Hm Hsg Hsm.
  assert (Hcopy : forall t, t ∈ dom (heap s) ->
            (forall l', sub_map (heap s) t doc = Some l' -> l' ∈ dom (heap s)) ->
            read (fst (spread (heap s) t)) (snd (spread (heap s) t)) doc a = read (heap s) t doc a /\
            read (fst (spread (heap s) t)) t doc a = read (heap s) t doc a).
  { intros t Ht Hsub. unfold spread.
    pose proof (alloc_fresh (heap s) (default ∅ (heap s !! t))) as (HT & HF & HK).
    destruct (alloc (heap s) (default ∅ (heap s !! t))) as [h1 c] eqn:E. simpl in *.
    apply elem_of_dom in Ht as [o Ho]. rewrite Ho in HT. simpl in HT.
    assert (Hsub' : forall l', o !! doc = Some (VRef l') -> h1 !! l' = heap s !! l').
    { intros l' Hl'. apply HK, Hsub. unfold sub_map. rewrite Ho. simpl. rewrite Hl'. reflexivity. }
    unfold read. rewrite HT, HK by (apply elem_of_dom; eauto). rewrite Ho.
    destruct (o !! doc) as [[n|l']|] eqn:Hd; try (split; reflexivity).
    rewrite (Hsub' l' eq_refl). split; reflexivity. }
  unfold getGlobalMappings, setGlobalMappings.
  destruct (Hcopy _ Hg Hsg) as [H1 H2]. destruct (Hcopy _ Hm Hsm) as [H3 _].
  destruct (spread (heap s) (globalPositionMappings s)) as [h1 c1] eqn:E1.
  destruct (spread (heap s) mappings) as [h2 c2] eqn:E2.
  simpl in *. split_and!; assumption.
Qed.

Lemma handover_reads_agree_witness :
  read (heap (fst (getGlobalMappings table_ex)))
       (snd (getGlobalMappings table_ex)) "M.html" "100" =
    read (heap table_ex) (globalPositionMappings table_ex) "M.html" "100" /\
  read (heap (fst (getGlobalMappings table_ex)))
       (globalPositionMappings (fst (getGlobalMappings table_ex))) "M.html" "100" =
    read (heap table_ex) (globalPositionMappings table_ex) "M.html" "100" /\
  read (heap (setGlobalMappings table_ex 1))
       (globalPositionMappings (setGlobalMappings table_ex 1)) "M.html" "100" =
    read (heap table_ex) 1 "M.html" "100".
Proof.
  apply handover_reads_agree; try (intros l' Hl'; vm_compute in Hl'; injection Hl' as <-);
    apply elem_of_dom; vm_compute; eauto.
Defined.

End SharedMappingsFacts.

(** * cli.ts: the batched transformation of the HTML files *)

Module CliBatches.
Import JsString.

Definition MEMORY_EFFICIENT_BATCH_SIZE : nat := 10.

(** [for (let i = 0; i < files.length; i += batchSize) files.slice(i, i + batchSize)] *)
Fixpoint file_batches (fuel : nat) (files : list string) : list (list string) :=
  match fuel with
  | O => []
  | S fuel' =>
      match files with
      | [] => []
      | _ :: _ => take MEMORY_EFFICIENT_BATCH_SIZE files
                  :: file_batches fuel' (drop MEMORY_EFFICIENT_BATCH_SIZE files)
      end
  end.

(** What the loop does, in order: start a worker on a batch, then call
    [progressCallback(current, total)]. *)
Inductive Event :=
| RunBatch (batch : list string)
| Progress (current total : nat).

Section Cli.

(** [transformed file]: the worker's [try] block for [file] (read,
    [transform], write) completes without throwing. *)
Variable transformed : string -> bool.
(** [worker_completes batch]: the worker started on [batch] posts its
    [complete] message, so [processFileBatch] resolves; otherwise it
    rejects (worker [error] event or a non-zero exit code). *)
Variable worker_completes : list string -> bool.

(** The worker's [processBatch]: [processedCount] counts the files whose
    [try] block completed; a failing file only posts an [error] message. *)
Definition processBatch (files : list string) : nat :=
  List.length (List.filter transformed files).

(** [processFileBatch]: resolves with the worker's count, or rejects. *)
Definition processFileBatch (files : list string) : option nat :=
  if worker_completes files then Some (processBatch files) else None.

(** The [for] loop over the batches from [processedCount] on, with the
    events so far; the boolean is [false] when a rejection is rethrown. *)
Fixpoint run_batches (total : nat) (bs : list (list string)) (processedCount : nat)
    (trace : list Event) : list Event * bool :=
  match bs with
  | [] => (trace, true)
  | batch :: bs' =>
      let trace' := (trace ++ [RunBatch batch])%list in
      match processFileBatch batch with
      | None => (trace', false)
      | Some count =>
          let processedCount' := processedCount + count in
          run_batches total bs' processedCount'
            (trace' ++ [Progress processedCount' total])%list
      end
  end.

Definition processFilesInMemoryEfficientBatches (files : list string) : list Event * bool :=
  run_batches (List.length files)
    (file_batches (List.length files) files) 0 [].

End Cli.

(** The batches started, and the arguments of the progress calls, in order. *)
Definition batches_run (trace : list Event) : list (list string) :=
  List.flat_map (fun e => match e with RunBatch b => [b] | Progress _ _ => [] end) trace.

Definition progress_calls (trace : list Event) : list (nat * nat) :=
  List.flat_map (fun e => match e with RunBatch _ => [] | Progress c t => [(c, t)] end) trace.

End CliBatches.

Module CliFacts.
Import JsString CliBatches.

Lemma file_batches_concat (fuel : nat) (files : list string) :
  List.length files <= fuel -> List.concat (file_batches fuel files) = files.
Proof.
  revert files. induction fuel as [|fuel IH]; intros files Hl; simpl.
  - destruct files; simpl in *; [reflexivity | lia].
  - destruct files as [|f fs]; [reflexivity|].
    simpl. rewrite IH.
    + change (f :: take 9 fs ++ drop 10 (f :: fs) = f :: fs)%list.
      simpl. f_equal. apply take_drop.
    + simpl in Hl. simpl. rewrite length_drop. lia.
Qed.

Lemma file_batches_sizes (fuel : nat) (files : list string) (b : list string) :
  In b (file_batches fuel files) ->
  1 <= List.length b <= MEMORY_EFFICIENT_BATCH_SIZE.
Proof.
  revert files. induction fuel as [|fuel IH]; intros files Hb; simpl in Hb; [destruct Hb|].
  destruct files as [|f fs]; simpl in Hb; [destruct Hb|].
  destruct Hb as [<-|Hb]; [|eauto].
  simpl. rewrite ?length_take. unfold MEMORY_EFFICIENT_BATCH_SIZE. lia.
Qed.

Lemma batches_run_app (t1 t2 : list Event) :
  batches_run (t1 ++ t2) = (batches_run t1 ++ batches_run t2)%list.
Proof. apply flat_map_app. Qed.

Lemma progress_calls_app (t1 t2 : list Event) :
  progress_calls (t1 ++ t2) = (progress_calls t1 ++ progress_calls t2)%list.
Proof. apply flat_map_app. Qed.

Lemma run_batches_trace tr wc total bs pc trace :
  run_batches tr wc total bs pc trace =
  let r := run_batches tr wc total bs pc [] in ((trace ++ fst r)%list, snd r).
Proof.
  revert pc trace. induction bs as [|b bs IH]; intros pc trace; simpl; [by rewrite app_nil_r|].
  unfold processFileBatch. destruct (wc b); simpl; [|reflexivity].
  rewrite IH. symmetry. rewrite IH. simpl. by rewrite <- !app_assoc.
Qed.

Lemma processBatch_app tr l1 l2 :
  processBatch tr (l1 ++ l2) = processBatch tr l1 + processBatch tr l2.
Proof. unfold processBatch. by rewrite List.filter_app, length_app. Qed.

Lemma run_batches_success tr wc total bs pc :
  (forall b, In b bs -> wc b = true) ->
  snd (run_batches tr wc total bs pc []) = true /\
  batches_run (fst (run_batches tr wc total bs pc [])) = bs /\
  progress_calls (fst (run_batches tr wc total bs pc [])) =
    imap (fun k _ => (pc + processBatch tr (List.concat (take (S k) bs)), total)) bs.
Proof.
  revert pc. induction bs as [|b bs IH]; intros pc Hok; [simpl; done|].
  cbn [run_batches]. unfold processFileBatch. rewrite (Hok b) by (left; done).
  rewrite run_batches_trace. cbv zeta. cbn [fst snd].
  destruct (IH (pc + processBatch tr b)) as (H1 & H2 & H3); [intros; apply Hok; by right|].
  rewrite batches_run_app, progress_calls_app, H1, H2, H3. split_and!; [done|done|].
  rewrite imap_cons. cbn [take List.concat]. rewrite app_nil_r.
  change (progress_calls ([RunBatch b] ++ [Progress (pc + processBatch tr b) total]))
    with [(pc + processBatch tr b, total)].
  cbn [app]. f_equal. apply imap_ext. intros k x _. cbn [take List.concat].
  unfold compose. cbn beta. rewrite processBatch_app. f_equal. lia.
Qed.

Lemma run_batches_failure tr wc total bs pc k b :
  bs !! k = Some b -> wc b = false ->
  (forall j b', j < k -> bs !! j = Some b' -> wc b' = true) ->
  snd (run_batches tr wc total bs pc []) = false /\
  batches_run (fst (run_batches tr wc total bs pc [])) = take (S k) bs /\
  List.length (progress_calls (fst (run_batches tr wc total bs pc []))) = k.
Proof.
  revert pc k. induction bs as [|b0 bs IH]; intros pc k Hk Hb Hbefore; [done|].
  cbn [run_batches]. unfold processFileBatch. destruct k as [|k].
  - simpl in Hk. injection Hk as ->. rewrite Hb. done.
  - rewrite (Hbefore 0 b0) by (done || lia).
    rewrite run_batches_trace. cbv zeta. cbn [fst snd].
    destruct (IH (pc + processBatch tr b0) k) as (H1 & H2 & H3); [done|done| |].
    { intros j b' Hj Hj'. apply (Hbefore (S j)); [lia|done]. }
    rewrite batches_run_app, progress_calls_app, H1, H2, length_app, H3. done.
Qed.

Lemma run_batches_progress_bounded tr wc total bs pc c t :
  pc + List.length (List.concat bs) <= total ->
  In (c, t) (progress_calls (fst (run_batches tr wc total bs pc []))) ->
  pc <= c <= total /\ t = total.
Proof.
  revert pc. induction bs as [|b bs IH]; intros pc Hle Hin; simpl in *; [done|].
  unfold processFileBatch in Hin. destruct (wc b); simpl in Hin; [|done].
  rewrite run_batches_trace in Hin. simpl in Hin.
  rewrite length_app in Hle.
  assert (processBatch tr b <= List.length b) by (unfold processBatch; apply List.filter_length_le).
  destruct Hin as [Heq|Hin]; [injection Heq as <- <-; lia|].
  destruct (IH (pc + processBatch tr b)) as [? ?]; [lia|done|]. split; [lia|done].
Qed.

(** X20: [processFilesInMemoryEfficientBatches], when every worker completes:
    the loop starts one worker per slice of at most 10 consecutive files,
    the slices in order make up the file list, and after the [k]-th batch
    the progress callback receives the number of files of the first [k+1]
    batches that were transformed without error, and the number of files. *)
Theorem cli_batches_all_complete (transformed : string -> bool)
    (worker_completes : list string -> bool) (files : list string) :
  let bs := file_batches (List.length files) files in
  (forall b, In b bs -> worker_completes b = true) ->
  let r := processFilesInMemoryEfficientBatches transformed worker_completes files in
  snd r = true /\
  batches_run (fst r) = bs /\
  List.concat bs = files /\
  (forall b, In b bs -> 1 <= List.length b <= MEMORY_EFFICIENT_BATCH_SIZE) /\
  progress_calls (fst r) =
    imap (fun k _ => (processBatch transformed (List.concat (take (S k) bs)),
                      List.length files)) bs.
Proof.
  intros bs Hok r. unfold r, processFilesInMemoryEfficientBatches.
  destruct (run_batches_success transformed worker_completes (List.length files) bs 0 Hok)
    as (H1 & H2 & H3).
  split_and!; [done|done|by apply file_batches_concat|eauto using file_batches_sizes|done].
Qed.

(** X21: [processFilesInMemoryEfficientBatches], when the worker of batch [k]
    rejects and every earlier one completes: the error is rethrown, no
    batch after [k] is started, and the progress callback was called once
    for each of the [k] earlier batches. *)
Theorem cli_batch_failure_stops (transformed : string -> bool)
    (worker_completes : list string -> bool) (files : list string) (k : nat)
    (b : list string) :
  let bs := file_batches (List.length files) files in
  bs !! k = Some b -> worker_completes b = false ->
  (forall j b', j < k -> bs !! j = Some b' -> worker_completes b' = true) ->
  let r := processFilesInMemoryEfficientBatches transformed worker_completes files in
  snd r = false /\
  batches_run (fst r) = take (S k) bs /\
  List.length (progress_calls (fst r)) = k.
Proof.
  intros bs Hk Hb Hbefore r. by apply run_batches_failure with (b := b).
Qed.

(** X22: Whatever the workers do, every progress call of
    [processFilesInMemoryEfficientBatches] has [current <= total] and
    [total = files.length]: the progress bar's [' '.repeat(width - barLength)]
    never gets a negative count. *)
Theorem cli_progress_bounded (transformed : string -> bool)
    (worker_completes : list string -> bool) (files : list string) (c t : nat) :
  In (c, t) (progress_calls (fst (processFilesInMemoryEfficientBatches
                                     transformed worker_completes files))) ->
  c <= t /\ t = List.length files.
Proof.
  intros Hin. unfold processFilesInMemoryEfficientBatches in Hin.
  apply run_batches_progress_bounded in Hin; [lia|].
  rewrite file_batches_concat; lia.
Qed.

Definition example_files : list string :=
  ["A.html"; "B.html"; "C.html"; "D.html"; "E.html"; "F.html"; "G.html";
   "H.html"; "I.html"; "J.html"; "K.html"; "L.html"].

(** Every file but [D.html] transforms; every worker completes: progress
    calls (9, 12) and (11, 12). *)
Lemma cli_batches_all_complete_witness :
  (forall b, In b (file_batches (List.length example_files) example_files) ->
             (fun _ : list string => true) b = true) /\
  progress_calls (fst (processFilesInMemoryEfficientBatches
                         (fun f => negb (String.eqb f "D.html"))
                         (fun _ => true) example_files)) = [(9, 12); (11, 12)].
Proof.
  split; [intros; reflexivity|].
  destruct (cli_batches_all_complete (fun f => negb (String.eqb f "D.html"))
              (fun _ => true) example_files) as (_ & _ & _ & _ & H);
    [intros; reflexivity|].
  rewrite H. vm_compute. reflexivity.
Defined.

(** The worker of the second batch (the one holding [K.html]) rejects. *)
Lemma cli_batch_failure_stops_witness :
  let wc := fun b => negb (existsb (String.eqb "K.html") b) in
  (file_batches (List.length example_files) example_files) !! 1 = Some ["K.html"; "L.html"] /\
  wc ["K.html"; "L.html"] = false /\
  (forall j b', j < 1 -> (file_batches (List.length example_files) example_files) !! j = Some b' ->
                wc b' = true) /\
  snd (processFilesInMemoryEfficientBatches (fun _ => true) wc example_files) = false /\
  List.length (progress_calls (fst (processFilesInMemoryEfficientBatches
                                      (fun _ => true) wc example_files))) = 1.
Proof.
  intros wc.
  assert (Hb : forall j b', j < 1 ->
            (file_batches (List.length example_files) example_files) !! j = Some b' ->
            wc b' = true).
  { intros j b' Hj Hj'. destruct j as [|j]; [|lia].
    vm_compute in Hj'. injection Hj' as <-. reflexivity. }
  destruct (cli_batch_failure_stops (fun _ => true) wc example_files 1 ["K.html"; "L.html"])
    as (H1 & _ & H3); [reflexivity|reflexivity|exact Hb|].
  split_and!; [reflexivity|reflexivity|exact Hb|exact H1|exact H3].
Defined.

Lemma cli_progress_bounded_witness :
  In (11, 12) (progress_calls (fst (processFilesInMemoryEfficientBatches
                 (fun f => negb (String.eqb f "D.html")) (fun _ => true) example_files))) /\
  11 <= 12 /\ 12 = List.length example_files.
Proof.
  assert (Hin : In (11, 12) (progress_calls (fst (processFilesInMemoryEfficientBatches
                 (fun f => negb (String.eqb f "D.html")) (fun _ => true) example_files)))).
  { vm_compute. right. left. reflexivity. }
  split; [exact Hin|].
  exact (cli_progress_bounded _ _ example_files 11 12 Hin).
Defined.

End CliFacts.

(** * types.ts / transformer.ts: the module sidebar (both files have the
    same [shouldIncludeModule] and [addSidebar]) *)

Module Sidebar.
Import JsString PositionIndexer Search.

Record ModuleInfo := mkModuleInfo {
  name : string;
  path : string;
  isProjectModule : bool
}.

(** [s.replace(p, r)] for a string pattern [p]: the first occurrence only. *)
Fixpoint replace_first (p r s : string) : string :=
  match strip_prefix p s with
  | Some rest => r ++ rest
  | None =>
      match s with
      | EmptyString => EmptyString
      | String c s' => String c (replace_first p r s')
      end
  end.

(** [config.modules] is absent ([None]) or a list of prefixes. *)
Definition shouldIncludeModule (modules : option (list string)) (moduleName : string) : bool :=
  match modules with
  | None => true
  | Some ms =>
      existsb (fun module => match strip_prefix module moduleName with
                             | Some _ => true
                             | None => false
                             end) ms
  end.

Definition module_of (modules : option (list string)) (file : string) : ModuleInfo :=
  let moduleName := replace_first ".html" "" file in
  mkModuleInfo moduleName file (shouldIncludeModule modules moduleName).

(** [module.name.split('.')[0]] *)
Definition group_of (m : ModuleInfo) : string :=
  hd EmptyString (split_on "." (name m)).

(** [groupedModules.has(group)], [set(group, [])], [get(group)!.push(module)]:
    the array in the map grows in place, so its key keeps its place. *)
Definition group_step (groupedModules : list (string * list ModuleInfo)) (module : ModuleInfo)
    : list (string * list ModuleInfo) :=
  let group := group_of module in
  let groupedModules' :=
    match obj_get group groupedModules with
    | None => obj_set group [] groupedModules
    | Some _ => groupedModules
    end in
  match obj_get group groupedModules' with
  | Some gm => obj_set group (gm ++ [module])%list groupedModules'
  | None => groupedModules'
  end.

Record SidebarLink := mkSidebarLink {
  href : string;
  textContent : string;
  active : bool
}.

(** [module.name.split('.').slice(1).join('.')] *)
Definition displayName (moduleName : string) : string :=
  join "." (tl (split_on "." moduleName)).

Definition module_link (currentPath : string) (module : ModuleInfo) : SidebarLink :=
  let d := displayName (name module) in
  mkSidebarLink (path module)
    (if String.eqb d "" then name module else d)
    (String.eqb (path module) currentPath
     || String.eqb (path module) (List.last (split_on "/" currentPath) "")).

(** The sidebar: absent when [config.inputDir] is missing or empty (the
    function returns early), otherwise its groups of links in [Map] order;
    a failing [readdirSync] leaves the header alone. *)
Inductive SidebarResult :=
| NoSidebar
| WithSidebar (groups : list (string * list SidebarLink)).

Section AddSidebar.

(** [.sort((a, b) => a.name.localeCompare(b.name))] *)
Variable sort_by_name : list ModuleInfo -> list ModuleInfo.

Definition filteredModules (modules : option (list string)) (entries : list string)
    : list ModuleInfo :=
  sort_by_name (List.filter isProjectModule (map (module_of modules) (html_files entries))).

Definition addSidebar (modules : option (list string)) (inputDir : option string)
    (readdir : string -> option (list string)) (currentPath : string) : SidebarResult :=
  match inputDir with
  | None => NoSidebar
  | Some dir =>
      if String.eqb dir "" then NoSidebar else
      match readdir dir with
      | None => WithSidebar []
      | Some entries =>
          let groupedModules := fold_left group_step (filteredModules modules entries) [] in
          WithSidebar (map (fun '(groupName, groupModules) =>
                              (groupName, map (module_link currentPath) groupModules))
                           groupedModules)
      end
  end.

End AddSidebar.

End Sidebar.

Module SidebarFacts.
Import JsString PositionIndexer Search Sidebar.

Lemma split_on_nonempty (c : ascii) (s : string) : split_on c s <> [].
Proof.
  induction s as [|a s IH]; simpl; [done|].
  destruct (Ascii.eqb a c); [done|]. by destruct (split_on c s).
Qed.

Lemma join_cons_string (sep : string) (a : ascii) (p : string) (ps : list string) :
  join sep (String a p :: ps) = String a (join sep (p :: ps)).
Proof. by destruct ps. Qed.

(** [s.split(c).join(c)] gives [s] back. *)
Lemma join_split_on (c : ascii) (s : string) :
  join (String c EmptyString) (split_on c s) = s.
Proof.
  induction s as [|a s IH]; [reflexivity|]. simpl.
  destruct (Ascii.eqb_spec a c) as [->|Hne].
  - destruct (split_on c s) as [|seg segs] eqn:E; [by apply split_on_nonempty in E|].
    simpl. rewrite <- IH. reflexivity.
  - destruct (split_on c s) as [|seg segs] eqn:E; [by apply split_on_nonempty in E|].
    rewrite join_cons_string, IH. reflexivity.
Qed.

Lemma obj_get_set {A} (k j : string) (v : A) (o : list (string * A)) :
  obj_get j (obj_set k v o) = if String.eqb k j then Some v else obj_get j o.
Proof.
  destruct (String.eqb_spec k j) as [->|Hne].
  - apply obj_get_set_eq.
  - apply obj_get_set_ne. congruence.
Qed.

Lemma obj_get_keys {A} (k : string) (o : list (string * A)) :
  obj_get k o = None <-> k ∉ map fst o.
Proof.
  induction o as [|[k' v'] o IH]; simpl; [set_solver|].
  destruct (String.eqb_spec k k') as [->|Hne]; [set_solver|].
  rewrite IH. set_solver.
Qed.

Lemma obj_set_keys_old {A} (k : string) (v : A) (o : list (string * A)) :
  k ∈ map fst o -> map fst (obj_set k v o) = map fst o.
Proof.
  induction o as [|[k' v'] o IH]; intros Hk; simpl; [set_solver|].
  destruct (String.eqb_spec k k') as [->|Hne]; [reflexivity|].
  simpl. rewrite IH by set_solver. reflexivity.
Qed.

Lemma obj_set_values {A} (k : string) (v : list A) (o : list (string * list A)) :
  Permutation (List.concat (map snd (obj_set k v o)) ++ default [] (obj_get k o))
              (v ++ List.concat (map snd o)).
Proof.
  induction o as [|[k' v'] o IH]; simpl.
  - by rewrite !app_nil_r.
  - destruct (String.eqb_spec k k') as [->|Hne]; simpl.
    + rewrite <- !app_assoc. apply Permutation_app_head, Permutation_app_comm.
    + rewrite <- app_assoc, IH. solve_Permutation.
Qed.

Lemma group_step_get (acc : list (string * list ModuleInfo)) (m : ModuleInfo) (g : string) :
  obj_get g (group_step acc m) =
  if String.eqb (group_of m) g then Some (default [] (obj_get g acc) ++ [m])%list
  else obj_get g acc.
Proof.
  unfold group_step. destruct (obj_get (group_of m) acc) as [l|] eqn:E.
  - rewrite E, obj_get_set.
    destruct (String.eqb_spec (group_of m) g) as [<-|]; [by rewrite E|reflexivity].
  - rewrite obj_get_set_eq, !obj_get_set.
    destruct (String.eqb_spec (group_of m) g) as [<-|]; [by rewrite E|reflexivity].
Qed.

Lemma group_step_nodup (acc : list (string * list ModuleInfo)) (m : ModuleInfo) :
  NoDup (map fst acc) -> NoDup (map fst (group_step acc m)).
Proof.
  intros Hnd. unfold group_step. destruct (obj_get (group_of m) acc) as [l|] eqn:E.
  - rewrite E, obj_set_keys_old; [done|].
    destruct (decide (group_of m ∈ map fst acc)) as [|Hn]; [done|].
    apply obj_get_keys in Hn. congruence.
  - apply obj_get_keys in E. rewrite obj_get_set_eq.
    rewrite obj_set_keys_old;
      [|rewrite SearchFacts.obj_set_keys_new by done; apply elem_of_app; right; by left].
    rewrite SearchFacts.obj_set_keys_new by done.
    apply NoDup_app. split_and!; [done| |by apply NoDup_singleton].
    intros x Hx Hx'. apply list_elem_of_singleton in Hx'. subst. done.
Qed.

Lemma group_step_values (acc : list (string * list ModuleInfo)) (m : ModuleInfo) :
  Permutation (List.concat (map snd (group_step acc m))) (List.concat (map snd acc) ++ [m]).
Proof.
  unfold group_step. destruct (obj_get (group_of m) acc) as [l|] eqn:E.
  - rewrite E. apply (Permutation_app_inv_r l).
    pose proof (obj_set_values (group_of m) (l ++ [m]) acc) as H. rewrite E in H.
    simpl in H. rewrite H. solve_Permutation.
  - rewrite obj_get_set_eq.
    pose proof (obj_set_values (group_of m) ([] ++ [m]) (obj_set (group_of m) [] acc)) as H.
    rewrite obj_get_set_eq in H. simpl in H. rewrite app_nil_r in H. rewrite H.
    pose proof (obj_set_values (group_of m) [] acc) as H'. rewrite E in H'.
    simpl in H'. rewrite app_nil_r in H'. rewrite H'. solve_Permutation.
Qed.

Lemma fold_group_get (ms : list ModuleInfo) (acc : list (string * list ModuleInfo)) (g : string) :
  obj_get g (fold_left group_step ms acc) =
  let f := List.filter (fun m => String.eqb (group_of m) g) ms in
  match obj_get g acc, f with
  | None, [] => None
  | o, _ => Some (default [] o ++ f)%list
  end.
Proof.
  revert acc. induction ms as [|m ms IH]; intros acc; simpl.
  - destruct (obj_get g acc); [by rewrite app_nil_r|reflexivity].
  - rewrite IH, group_step_get.
    destruct (String.eqb (group_of m) g); simpl.
    + destruct (obj_get g acc); simpl; by rewrite <- ?app_assoc.
    + reflexivity.
Qed.

Lemma fold_group_nodup (ms : list ModuleInfo) (acc : list (string * list ModuleInfo)) :
  NoDup (map fst acc) -> NoDup (map fst (fold_left group_step ms acc)).
Proof.
  revert acc. induction ms as [|m ms IH]; intros acc Hnd; simpl; [done|].
  apply IH, group_step_nodup, Hnd.
Qed.

Lemma fold_group_values (ms : list ModuleInfo) (acc : list (string * list ModuleInfo)) :
  Permutation (List.concat (map snd (fold_left group_step ms acc)))
              (List.concat (map snd acc) ++ ms).
Proof.
  revert acc. induction ms as [|m ms IH]; intros acc; simpl; [by rewrite app_nil_r|].
  rewrite IH, group_step_values, <- app_assoc. reflexivity.
Qed.

Lemma obj_get_map_values {A B} (F : A -> B) (o : list (string * A)) (g : string) :
  obj_get g (map (fun '(k, v) => (k, F v)) o) = option_map F (obj_get g o).
Proof.
  induction o as [|[k v] o IH]; simpl; [reflexivity|].
  destruct (String.eqb g k); [reflexivity|done].
Qed.

Lemma map_values_keys {A B} (F : A -> B) (o : list (string * A)) :
  map fst (map (fun '(k, v) => (k, F v)) o) = map fst o.
Proof. induction o as [|[k v] o IH]; simpl; [reflexivity|by rewrite IH]. Qed.

Lemma map_values_concat {A B} (F : A -> B) (o : list (string * list A)) :
  List.concat (map snd (map (fun '(k, v) => (k, map F v)) o)) = map F (List.concat (map snd o)).
Proof.
  induction o as [|[k v] o IH]; simpl; [reflexivity|]. by rewrite IH, map_app.
Qed.

(** X23: A sidebar link's text is the module name, or what follows the group
    name and its dot: [group + "." + text] gives the module name back; the
    text is the full name when the name has no dot or nothing after it. *)
Theorem sidebar_link_text (currentPath : string) (m : ModuleInfo) :
  let t := textContent (module_link currentPath m) in
  t = name m \/ (group_of m ++ "." ++ t = name m /\ t <> "").
Proof.
  cbn zeta. unfold module_link, group_of, displayName. cbn [textContent].
  pose proof (join_split_on "." (name m)) as J.
  destruct (split_on "." (name m)) as [|seg segs] eqn:E; [by apply split_on_nonempty in E|].
  cbn [tl hd].
  destruct (String.eqb_spec (join "." segs) "") as [He|Hne]; [left; reflexivity|].
  right. split; [|done].
  destruct segs as [|s segs]; [done|]. rewrite <- J. reflexivity.
Qed.

(** X24: With an input directory that lists [entries], [addSidebar] builds one
    group per distinct first segment of the kept module names ([Map] keys,
    no repeats), and group [g] holds, in the sorted order, the links of
    exactly the kept modules whose name starts with segment [g]. *)
Theorem sidebar_groups_by_first_segment (sort_by_name : list ModuleInfo -> list ModuleInfo)
    (modules : option (list string)) (dir : string)
    (readdir : string -> option (list string)) (currentPath : string)
    (entries : list string) :
  dir <> "" -> readdir dir = Some entries ->
  exists groups,
    addSidebar sort_by_name modules (Some dir) readdir currentPath = WithSidebar groups /\
    NoDup (map fst groups) /\
    forall g,
      obj_get g groups =
      match List.filter (fun m => String.eqb (group_of m) g)
                        (filteredModules sort_by_name modules entries) with
      | [] => None
      | ms => Some (map (module_link currentPath) ms)
      end.
Proof.
  intros Hdir Hread. unfold addSidebar.
  apply String.eqb_neq in Hdir. rewrite Hdir, Hread.
  eexists. split; [reflexivity|]. split.
  - rewrite map_values_keys. apply fold_group_nodup. constructor.
  - intros g. rewrite obj_get_map_values, fold_group_get. simpl.
    by destruct (List.filter _ _).
Qed.

Lemma module_of_href (modules : option (list string)) (currentPath : string) (file : string) :
  href (module_link currentPath (module_of modules file)) = file.
Proof. reflexivity. Qed.

(** X25: When the sort only reorders, the sidebar's links point exactly to the
    [.html] files of the directory whose module name (the file name with
    its first [".html"] removed) passes [shouldIncludeModule], each as many
    times as it is listed. *)
Theorem sidebar_hrefs_are_included_files (sort_by_name : list ModuleInfo -> list ModuleInfo)
    (Hsort : forall ms, Permutation (sort_by_name ms) ms)
    (modules : option (list string)) (dir : string)
    (readdir : string -> option (list string)) (currentPath : string)
    (entries : list string) (groups : list (string * list SidebarLink)) :
  dir <> "" -> readdir dir = Some entries ->
  addSidebar sort_by_name modules (Some dir) readdir currentPath = WithSidebar groups ->
  Permutation (map href (List.concat (map snd groups)))
    (List.filter (fun file => shouldIncludeModule modules (replace_first ".html" "" file))
                 (html_files entries)).
Proof.
  intros Hdir Hread Hsb. unfold addSidebar in Hsb.
  apply String.eqb_neq in Hdir. rewrite Hdir, Hread in Hsb. injection Hsb as <-.
  rewrite map_values_concat, map_map, fold_group_values. simpl.
  unfold filteredModules. rewrite Hsort.
  induction (html_files entries) as [|f fs IH]; simpl; [reflexivity|].
  destruct (shouldIncludeModule modules (replace_first ".html" "" f)); simpl;
    [by rewrite IH|done].
Qed.

Definition example_entries : list string :=
  ["Ledger.Foo.html"; "Prelude.html"; "style.css"; "Data.List.html"; "Ledger.Bar.html"].

Definition example_readdir (dir : string) : option (list string) :=
  if String.eqb dir "docs" then Some example_entries else None.

Definition example_modules : option (list string) := Some ["Ledger"; "Prelude"].

(** Kept modules [Ledger.Foo], [Prelude], [Ledger.Bar]: groups [Ledger]
    (two links) and [Prelude] (one link), in that order. *)
Lemma sidebar_groups_by_first_segment_witness :
  "docs" <> "" /\ example_readdir "docs" = Some example_entries /\
  exists groups,
    addSidebar (fun ms => ms) example_modules (Some "docs") example_readdir "Prelude.html"
      = WithSidebar groups /\
    map fst groups = ["Ledger"; "Prelude"] /\
    option_map (List.length (A:=SidebarLink)) (obj_get "Ledger" groups) = Some 2.
Proof.
  assert (Hd : "docs" <> "") by discriminate.
  assert (Hr : example_readdir "docs" = Some example_entries) by reflexivity.
  split_and!; [exact Hd|exact Hr|].
  destruct (sidebar_groups_by_first_segment (fun ms => ms) example_modules "docs"
              example_readdir "Prelude.html" example_entries Hd Hr) as (groups & H1 & _ & H3).
  exists groups. split_and!; [exact H1| |].
  - vm_compute in H1. injection H1 as <-. reflexivity.
  - rewrite H3. vm_compute. reflexivity.
Defined.

Definition example_groups : list (string * list SidebarLink) :=
  match addSidebar (fun ms => ms) example_modules (Some "docs") example_readdir "" with
  | WithSidebar groups => groups
  | NoSidebar => []
  end.

Lemma sidebar_hrefs_are_included_files_witness :
  (forall ms, Permutation ((fun ms : list ModuleInfo => ms) ms) ms) /\
  "docs" <> "" /\ example_readdir "docs" = Some example_entries /\
  addSidebar (fun ms => ms) example_modules (Some "docs") example_readdir ""
    = WithSidebar example_groups /\
  Permutation (map href (List.concat (map snd example_groups)))
    (List.filter (fun file => shouldIncludeModule example_modules (replace_first ".html" "" file))
                 (html_files example_entries)).
Proof.
  assert (Hs : forall ms, Permutation ((fun ms : list ModuleInfo => ms) ms) ms)
    by (intros; reflexivity).
  assert (Hd : "docs" <> "") by discriminate.
  assert (Hr : example_readdir "docs" = Some example_entries) by reflexivity.
  assert (Hg : addSidebar (fun ms => ms) example_modules (Some "docs") example_readdir ""
               = WithSidebar example_groups) by (vm_compute; reflexivity).
  split_and!; [exact Hs|exact Hd|exact Hr|exact Hg|].
  exact (sidebar_hrefs_are_included_files _ Hs example_modules "docs" example_readdir ""
           example_entries example_groups Hd Hr Hg).
Defined.

End SidebarFacts.
